(** * qwen_report.py: grouping of inspection images and report assembly

    A shallow embedding of [src/qwen_report.py]: the file grouper
    [group_files_by_turbine_blade], the prompt construction and the model
    call of [generate_blade_report], and the batch loop of
    [process_turbine_data_to_html].

    Conventions of the embedding.
    - A Python [str] is a [string]; a character is the code point of an
      [ascii] (code points below 256).  On these code points [\d] is [0-9],
      and [str.lower] maps [A-Z] and the Latin-1 capitals to their lower
      case and leaves every other character alone.
    - The insertion-ordered [dict] of the grouper is an association list;
      the inner [{"rgb": [...], "thermal": [...]}] dictionary, whose two
      keys are fixed, is a record.
    - Exceptions are values of [result]; the file system is a read-only
      table of directory listings, in which a directory that exists can be
      listed; the model, the processor, [process_vision_info] and the
      markdown converter are external and enter as functions.
    - What a run does to the outside is a trace of events; the write of
      the output file is one of them and is taken to succeed. *)

From Stdlib Require Import List Bool Arith Lia Ascii String.
From Stdlib Require Import Decimal DecimalString.
From Stdlib Require Import Sorting.Sorted Sorting.Permutation Sorting.Mergesort.
From Stdlib Require Import Orders Relations.
Import ListNotations.
Local Open Scope list_scope.
Local Open Scope string_scope.

Set Implicit Arguments.

(** ** Exceptions *)

(** The exceptions of the source's own operations, and [ExternalError]
    for whatever the model, the processor or a library raises. *)
Inductive exn : Type :=
| KeyError (key : string)
| IndexError
| FileNotFoundError (path : string)
| ExternalError (what : string).

Inductive result (A : Type) : Type :=
| Ok (a : A)
| Raise (e : exn).

Arguments Ok {A} a.
Arguments Raise {A} e.

Definition rbind {A B} (r : result A) (k : A -> result B) : result B :=
  match r with
  | Ok a => k a
  | Raise e => Raise e
  end.

Declare Scope result_scope.
Delimit Scope result_scope with result.
Notation "x <- r ;; k" := (rbind r (fun x => k))
  (at level 61, r at next level, right associativity) : result_scope.

(** A [for] loop over a list whose body may raise: the first exception
    leaves the loop. *)
Fixpoint for_each {A S} (xs : list A) (s : S) (body : A -> S -> result S)
  : result S :=
  match xs with
  | [] => Ok s
  | x :: xs' => rbind (body x s) (fun s' => for_each xs' s' body)
  end.

(** ** Characters and strings *)

Module Str.

Definition code (c : ascii) : nat := nat_of_ascii c.

(** [\d] on code points below 256. *)
Definition is_digit (c : ascii) : bool :=
  ((48 <=? code c) && (code c <=? 57))%nat.

(** [[A-Z]]. *)
Definition is_upper (c : ascii) : bool :=
  ((65 <=? code c) && (code c <=? 90))%nat.

(** [str.lower] on one code point below 256: [A-Z], and the capitals
    U+00C0..U+00DE other than the multiplication sign U+00D7, move up by
    32. *)
Definition lower_char (c : ascii) : ascii :=
  let n := code c in
  if is_upper c then ascii_of_nat (n + 32)
  else if ((192 <=? n) && (n <=? 222) && negb (n =? 215))%nat
       then ascii_of_nat (n + 32)
       else c.

Fixpoint lower (s : string) : string :=
  match s with
  | EmptyString => EmptyString
  | String c s' => String (lower_char c) (lower s')
  end.

(** [s.startswith(p)]. *)
Fixpoint startswith (s p : string) {struct p} : bool :=
  match p, s with
  | EmptyString, _ => true
  | String a p', String b s' => Ascii.eqb a b && startswith s' p'
  | String _ _, EmptyString => false
  end.

(** The number of positions of [s] at which [p] occurs. *)
Fixpoint count_sub (p s : string) : nat :=
  match s with
  | EmptyString => 0
  | String _ s' => (if startswith s p then 1 else 0) + count_sub p s'
  end.

(** [s.endswith(p)]: the last [len(p)] characters of [s] are [p]. *)
Definition endswith (s p : string) : bool :=
  let n := String.length s in
  let m := String.length p in
  (m <=? n)%nat && String.eqb (String.substring (n - m) m s) p.

(** [s[len(p):]] when [s] starts with [p]. *)
Fixpoint strip_prefix (p s : string) : option string :=
  match p, s with
  | EmptyString, _ => Some s
  | String a p', String b s' =>
      if Ascii.eqb a b then strip_prefix p' s' else None
  | String _ _, EmptyString => None
  end.

(** Longest prefix of characters satisfying [f], and the rest. *)
Fixpoint span (f : ascii -> bool) (s : string) : string * string :=
  match s with
  | EmptyString => (EmptyString, EmptyString)
  | String c s' =>
      if f c then let (a, b) := span f s' in (String c a, b)
      else (EmptyString, s)
  end.

Fixpoint forallb (f : ascii -> bool) (s : string) : bool :=
  match s with
  | EmptyString => true
  | String c s' => f c && forallb f s'
  end.

(** [sep.join(parts)]. *)
Fixpoint join_with (sep : string) (parts : list string) : string :=
  match parts with
  | [] => ""
  | [x] => x
  | x :: rest => x ++ sep ++ join_with sep rest
  end.

End Str.

(** ** os.path.join (posixpath) with one component

    [b] replaces [a] when it is absolute; otherwise it is appended, with a
    separator unless [a] is empty or already ends in one. *)
Definition path_join (a b : string) : string :=
  if Str.startswith b "/" then b
  else if String.eqb a "" || Str.endswith a "/" then a ++ b
  else a ++ "/" ++ b.

(** ** The identifier pattern [^(Turbine-\d+_[A-Z])]

    [pattern_match fname] is [pattern.match(fname)]: [None] when there is
    no match, otherwise [match.group(1)].  The greedy [\d+] never has to
    give a digit back, since the next pattern character [_] is not a
    digit, so the matcher reads the whole run of digits in one go. *)
Definition pattern_match (fname : string) : option string :=
  match Str.strip_prefix "Turbine-" fname with
  | None => None
  | Some r =>
      match Str.span Str.is_digit r with
      | (EmptyString, _) => None
      | (ds, String u (String c _)) =>
          if Ascii.eqb u "_" && Str.is_upper c
          then Some ("Turbine-" ++ ds ++ "_" ++ String c "")
          else None
      | (_, _) => None
      end
  end.

(** The pattern as a regular expression, with its language. *)
Inductive regex : Type :=
| Lit (s : string)
| Class (f : ascii -> bool)
| Cat (r1 r2 : regex)
| Plus (r : regex).

Inductive in_lang : regex -> string -> Prop :=
| in_lit s : in_lang (Lit s) s
| in_class (f : ascii -> bool) c : f c = true -> in_lang (Class f) (String c "")
| in_cat r1 r2 s1 s2 :
    in_lang r1 s1 -> in_lang r2 s2 -> in_lang (Cat r1 r2) (s1 ++ s2)
| in_plus_one r s : in_lang r s -> in_lang (Plus r) s
| in_plus_more r s1 s2 :
    in_lang r s1 -> in_lang (Plus r) s2 -> in_lang (Plus r) (s1 ++ s2).

Definition turbine_blade_regex : regex :=
  Cat (Lit "Turbine-")
      (Cat (Plus (Class Str.is_digit))
           (Cat (Lit "_") (Class Str.is_upper))).

(** [fname] starts with a match [p] of the pattern. *)
Definition starts_with_match (fname p : string) : Prop :=
  in_lang turbine_blade_regex p /\ exists rest, fname = p ++ rest.

(** The extension test of the grouper. *)
Definition is_image (fname : string) : bool :=
  Str.endswith (Str.lower fname) ".jpg" || Str.endswith (Str.lower fname) ".png".

(** ** sorted() on a list of strings

    Python compares strings code point by code point, a proper prefix
    coming first: the order of [String.leb].  [sorted] is a merge sort. *)

Module StringOrder <: TotalLeBool.
Definition t := string.
Definition leb := String.leb.
Theorem leb_total : forall x y, leb x y = true \/ leb y x = true.
Proof. exact String.leb_total. Qed.
End StringOrder.

Module StringSort := Sort StringOrder.

Definition sorted (l : list string) : list string := StringSort.sort l.

(** ** The file system, as the grouper reads it

    [fs d] is [Some names] when [d] is a directory with these entries, in
    the arbitrary order of [os.listdir], and [None] when [d] is not an
    existing directory. *)
Definition filesystem := string -> option (list string).

Definition isdir (fs : filesystem) (d : string) : bool :=
  match fs d with
  | Some _ => true
  | None => false
  end.

Definition listdir (fs : filesystem) (d : string) : result (list string) :=
  match fs d with
  | Some names => Ok names
  | None => Raise (FileNotFoundError d)
  end.

(** ** Groups and the mapping of groups *)

Inductive modality : Type := RGB | Thermal.

Record group : Type := mkGroup { rgb : list string; thermal : list string }.

(** The fresh value [{"rgb": [], "thermal": []}]. *)
Definition empty_group : group := mkGroup [] [].

Definition files_of (m : modality) (g : group) : list string :=
  match m with
  | RGB => rgb g
  | Thermal => thermal g
  end.

(** [g[key].append(p)] for [key] the name of modality [m]. *)
Definition group_append (m : modality) (p : string) (g : group) : group :=
  match m with
  | RGB => mkGroup (rgb g ++ [p]) (thermal g)
  | Thermal => mkGroup (rgb g) (thermal g ++ [p])
  end.

(** An insertion-ordered dictionary from identifiers to groups. *)
Definition dict := list (string * group).

Fixpoint dict_get (k : string) (d : dict) : option group :=
  match d with
  | [] => None
  | (k', g) :: d' => if String.eqb k k' then Some g else dict_get k d'
  end.

Definition dict_keys (d : dict) : list string := map fst d.

(** [d.setdefault(k, v)]: a missing key is added last, a present key keeps
    its value and its place. *)
Definition setdefault (k : string) (v : group) (d : dict) : dict :=
  match dict_get k d with
  | Some _ => d
  | None => (d ++ [(k, v)])%list
  end.

(** The value under [k] replaced by its image under [f], in place. *)
Fixpoint dict_update (k : string) (f : group -> group) (d : dict) : dict :=
  match d with
  | [] => []
  | (k', g) :: d' =>
      if String.eqb k k' then (k', f g) :: d'
      else (k', g) :: dict_update k f d'
  end.

(** [d[k][key].append(p)]: the subscription [d[k]] raises [KeyError] when
    [k] is missing. *)
Definition append_path (m : modality) (k p : string) (d : dict) : result dict :=
  match dict_get k d with
  | None => Raise (KeyError k)
  | Some _ => Ok (dict_update k (group_append m p) d)
  end.

(** ** group_files_by_turbine_blade *)

(** The body of the two [for fname in sorted(os.listdir(...))] loops; they
    differ in the directory and in the list they append to. *)
Definition scan_step (m : modality) (dir : string)
    (fname : string) (file_groups : dict) : result dict :=
  if Str.endswith (Str.lower fname) ".jpg" || Str.endswith (Str.lower fname) ".png"
  then
    match pattern_match fname with
    | Some prefix =>
        let file_groups := setdefault prefix empty_group file_groups in
        append_path m prefix (path_join dir fname) file_groups
    | None => Ok file_groups
    end
  else Ok file_groups.

(** One [if os.path.isdir(dir): for ...] block. *)
Definition scan_dir (m : modality) (fs : filesystem) (dir : string)
    (file_groups : dict) : result dict :=
  if isdir fs dir then
    (names <- listdir fs dir ;;
     for_each (sorted names) file_groups (scan_step m dir))%result
  else Ok file_groups.

Definition group_files_by_turbine_blade (fs : filesystem)
    (rgb_dir thermal_dir : string) : result dict :=
  (let file_groups := [] in
   file_groups <- scan_dir RGB fs rgb_dir file_groups ;;
   file_groups <- scan_dir Thermal fs thermal_dir file_groups ;;
   Ok file_groups)%result.

(** ** generate_blade_report: the conversation *)

(** The line feed of the Python string literals. *)
Definition nl : string := String (ascii_of_nat 10) "".

(** [str(n)] for a length. *)
Definition str_of_nat (n : nat) : string :=
  NilEmpty.string_of_uint (Nat.to_uint n).

(** An element of the user content: [{"type": "text", "text": t}] or
    [{"type": "image", "image": p}]. *)
Inductive content_item : Type :=
| TextItem (text : string)
| ImageItem (image : string).

(** A message of the conversation: the system message carries a string,
    the user message the list of content items. *)
Inductive message : Type :=
| SystemMessage (content : string)
| UserMessage (content : list content_item).

Definition system_prompt : string :=
  "You are a senior expert specializing in wind turbine rotor blade inspection." ++ nl ++
  "You need to inspect RGB (visual) images and thermal images for the turbine blade." ++ nl ++
  "Please generate a comprehensive inspection report that includes (but not limited to):" ++ nl ++
  " - Observed anomalies or damage (e.g., cracks, erosion, delamination)" ++ nl ++
  " - Thermal anomalies or hotspots" ++ nl ++
  " - Severity assessment and potential causes" ++ nl ++
  " - Recommended maintenance or repair actions" ++ nl ++
  " - Implications for turbine performance" ++ nl.

(** Truth value of a list in a condition. *)
Definition truthy {A} (l : list A) : bool :=
  match l with
  | [] => false
  | _ :: _ => true
  end.

(** [user_content.append(x)]. *)
Definition append {A} (l : list A) (x : A) : list A := (l ++ [x])%list.

(** The user content, built as the source builds it: an empty list that
    the two guarded blocks append to. *)
Definition build_user_content (rgb_image_paths thermal_image_paths : list string)
    (turbine_blade_prefix : string) : list content_item :=
  let user_content := [] in
  let user_content :=
    if truthy rgb_image_paths then
      let user_content :=
        append user_content
          (TextItem ("Below are " ++ str_of_nat (List.length rgb_image_paths)
                     ++ " RGB images for " ++ turbine_blade_prefix ++ ":")) in
      fold_left (fun uc rgb_path => append uc (ImageItem rgb_path))
                rgb_image_paths user_content
    else user_content in
  let user_content :=
    if truthy thermal_image_paths then
      let user_content :=
        append user_content
          (TextItem ("Below are " ++ str_of_nat (List.length thermal_image_paths)
                     ++ " thermal images for " ++ turbine_blade_prefix ++ ":")) in
      fold_left (fun uc thr_path => append uc (ImageItem thr_path))
                thermal_image_paths user_content
    else user_content in
  user_content.

Definition build_messages (rgb_image_paths thermal_image_paths : list string)
    (turbine_blade_prefix : string) : list message :=
  [SystemMessage system_prompt;
   UserMessage (build_user_content rgb_image_paths thermal_image_paths
                                   turbine_blade_prefix)].

(** The block of one modality as the documentation words it: nothing for
    an empty list, otherwise the descriptive text item followed by one
    image item per path. *)
Definition modality_label (m : modality) : string :=
  match m with
  | RGB => "RGB"
  | Thermal => "thermal"
  end.

Definition spec_block (m : modality) (paths : list string) (identifier : string)
  : list content_item :=
  match paths with
  | [] => []
  | _ :: _ =>
      TextItem ("Below are " ++ str_of_nat (List.length paths) ++ " "
                ++ modality_label m ++ " images for " ++ identifier ++ ":")
      :: map ImageItem paths
  end.

(** ** The model provider and the run

    What the run does to the outside is a trace of events, in order: each
    entry into [generate_blade_report] with its arguments, each call of
    [model.generate] with its token budget, each [print], and the write of
    the output file. *)

Inductive event : Type :=
| EvReport (turbine_blade_prefix : string)
           (rgb_image_paths thermal_image_paths : list string)
| EvGenerate (max_new_tokens : nat)
| EvPrint (text : string)
| EvWrite (path content : string).

Definition token := nat.

Section Provider.

(** The state behind the model (device memory, random generator) and
    the image inputs that [process_vision_info] loads. *)
Variable St : Type.
Variable vision : Type.

(** The value returned by the processor call: the prompt token rows and
    the image features. *)
Record BatchFeature : Type :=
  mkBatch { input_ids : list (list token); pixel_values : vision }.

Record Processor : Type := mkProcessor {
  apply_chat_template : list message -> result string;
  processor_call : list string -> vision -> result BatchFeature;
  decode : list token -> result string
}.

(** [processor.batch_decode]: each row is decoded on its own, in order. *)
Fixpoint batch_decode (processor : Processor) (rows : list (list token))
  : result (list string) :=
  match rows with
  | [] => Ok []
  | row :: rows' =>
      rbind (decode processor row) (fun s =>
      rbind (batch_decode processor rows') (fun ss => Ok (s :: ss)))
  end.

Record Model : Type := mkModel {
  generate : BatchFeature -> nat -> St -> result (list (list token)) * St
}.

(** [qwen_vl_utils.process_vision_info] and [markdown.markdown]. *)
Variable process_vision_info : list message -> result vision.
Variable markdown : string -> string.

Record world : Type := mkWorld { model_state : St; trace : list event }.

(** Computations that read and change the world and may raise; the
    world survives an exception. *)
Definition M (A : Type) : Type := world -> result A * world.

Definition ret {A} (a : A) : M A := fun w => (Ok a, w).

Definition raise {A} (e : exn) : M A := fun w => (Raise e, w).

Definition bind {A B} (c : M A) (k : A -> M B) : M B :=
  fun w =>
    match c w with
    | (Ok a, w') => k a w'
    | (Raise e, w') => (Raise e, w')
    end.

Definition lift {A} (r : result A) : M A := fun w => (r, w).

Definition emit (e : event) : M unit :=
  fun w => (Ok tt, mkWorld (model_state w) (trace w ++ [e])).

Declare Scope run_scope.
Delimit Scope run_scope with run.
Notation "x <- c ;; k" := (bind c (fun x => k))
  (at level 61, c at next level, right associativity) : run_scope.
Notation "c ;; k" := (bind c (fun _ => k))
  (at level 61, right associativity) : run_scope.

(** [model.generate] on the unpacked inputs, with [max_new_tokens=n]. *)
Definition call_generate (model : Model) (inputs : BatchFeature) (n : nat)
  : M (list (list token)) :=
  (emit (EvGenerate n) ;;
   fun w =>
     let (r, st) := generate model inputs n (model_state w) in
     (r, mkWorld st (trace w)))%run.

(** [[out_ids[len(in_ids):] for in_ids, out_ids in zip(ins, outs)]]. *)
Definition trim_prompt (ins outs : list (list token)) : list (list token) :=
  map (fun '(in_ids, out_ids) => skipn (List.length in_ids) out_ids)
      (combine ins outs).

(** [xs[0]]. *)
Definition first {A} (xs : list A) : result A :=
  match xs with
  | [] => Raise IndexError
  | x :: _ => Ok x
  end.

Definition generate_blade_report
    (rgb_image_paths thermal_image_paths : list string)
    (model : Model) (processor : Processor)
    (turbine_blade_prefix : string) : M string :=
  (emit (EvReport turbine_blade_prefix rgb_image_paths thermal_image_paths) ;;
   let messages :=
     build_messages rgb_image_paths thermal_image_paths turbine_blade_prefix in
   text <- lift (apply_chat_template processor messages) ;;
   vision_inputs <- lift (process_vision_info messages) ;;
   inputs <- lift (processor_call processor [text] vision_inputs) ;;
   generated_ids <- call_generate model inputs 1024 ;;
   let generated_ids_trimmed := trim_prompt (input_ids inputs) generated_ids in
   output_text <- lift (batch_decode processor generated_ids_trimmed) ;;
   lift (first output_text))%run.

(** ** process_turbine_data_to_html *)

Fixpoint for_eachM {A S} (xs : list A) (s : S) (body : A -> S -> M S) : M S :=
  match xs with
  | [] => ret s
  | x :: xs' => bind (body x s) (fun s' => for_eachM xs' s' body)
  end.

Definition section_html_of (prefix report_html : string) : string :=
  "<h2>Report for " ++ prefix ++ "</h2>" ++ nl ++ "<div>" ++ report_html ++ "</div>".

(** The body of [for prefix, paths_dict in groups.items()]. *)
Definition process_group (model : Model) (processor : Processor)
    (item : string * group) (html_sections : list string) : M (list string) :=
  let (prefix, paths_dict) := item in
  let rgb_files := rgb paths_dict in
  let thermal_files := thermal paths_dict in
  if negb (truthy rgb_files) && negb (truthy thermal_files) then
    ret html_sections
  else
    (report <- generate_blade_report rgb_files thermal_files model processor prefix ;;
     let report_html := markdown report in
     let section_html := section_html_of prefix report_html in
     emit (EvPrint section_html) ;;
     ret (append html_sections section_html))%run.

Definition html_document (html_sections : list string) : string :=
  "<html>" ++ nl ++
  "  <head>" ++ nl ++
  "    <meta charset='UTF-8'>" ++ nl ++
  "    <title>Turbine Inspection Reports</title>" ++ nl ++
  "  </head>" ++ nl ++
  "  <body>" ++ nl
  ++ Str.join_with nl html_sections ++
  nl ++ "  </body>" ++ nl ++
  "</html>".

(** The loop and the write, for a mapping of groups already built. *)
Definition render_groups (groups : dict) (output_file : string)
    (model : Model) (processor : Processor) : M unit :=
  (html_sections <- for_eachM groups [] (process_group model processor) ;;
   let html_content := html_document html_sections in
   emit (EvWrite output_file html_content))%run.

Definition process_turbine_data_to_html (fs : filesystem)
    (rgb_dir thermal_dir output_file : string)
    (model : Model) (processor : Processor) : M unit :=
  (groups <- lift (group_files_by_turbine_blade fs rgb_dir thermal_dir) ;;
   render_groups groups output_file model processor)%run.

(** [reported model processor items w reports w']: from world [w], the
    generator returns [reports], one for each of [items] in order, each
    section being printed before the next report is asked for, and the
    world is then [w']. *)
Inductive reported (model : Model) (processor : Processor)
  : dict -> world -> list string -> world -> Prop :=
| reported_nil w : reported model processor [] w [] w
| reported_cons k g items w rep w1 reports w2 :
    generate_blade_report (rgb g) (thermal g) model processor k w = (Ok rep, w1) ->
    reported model processor items
             (mkWorld (model_state w1)
                      (trace w1 ++ [EvPrint (section_html_of k (markdown rep))]))
             reports w2 ->
    reported model processor ((k, g) :: items) w (rep :: reports) w2.

End Provider.

(** ** The script

    The [__main__] block: the two dataset directories and the output file
    are constants; [load_model] is external, returns the model and the
    processor, and may raise. *)





(** * Vocabulary of the properties

    Definitions that the statements below use and that are not part of
    the source: the readings of its tests as propositions, and the
    grouper seen as a function of the entries it keeps. *)

(** ** File names *)

(** [fname] ends, letter case apart, in [ext]. *)
Definition ends_with_nocase (fname ext : string) : Prop :=
  exists stem e, fname = stem ++ e /\ Str.lower e = ext.

Definition has_image_extension (fname : string) : Prop :=
  ends_with_nocase fname ".jpg" \/ ends_with_nocase fname ".png".

(** ** Mappings *)

(** [k in keys], as a boolean. *)
Definition mem (k : string) (ks : list string) : bool :=
  existsb (String.eqb k) ks.

(** The files under [k] for one modality; none when [k] is missing. *)
Definition files (m : modality) (k : string) (d : dict) : list string :=
  match dict_get k d with
  | Some g => files_of m g
  | None => []
  end.

(** What [setdefault] followed by the append does to the mapping. *)
Definition dict_add (m : modality) (k p : string) (d : dict) : dict :=
  dict_update k (group_append m p) (setdefault k empty_group d).

Definition modality_eqb (m m' : modality) : bool :=
  match m, m' with
  | RGB, RGB | Thermal, Thermal => true
  | _, _ => false
  end.

(** First occurrences, in order. *)
Fixpoint first_seen (ks : list string) : list string :=
  match ks with
  | [] => []
  | k :: ks' => k :: filter (fun y => negb (String.eqb y k)) (first_seen ks')
  end.

(** ** The kept entries of a listing *)

(** The identifier of a file name the grouper keeps. *)
Definition kept (fname : string) : option string :=
  if is_image fname then pattern_match fname else None.

(** The pairs (identifier, joined path) a listing contributes, in order. *)
Definition entries (dir : string) (names : list string) : list (string * string) :=
  flat_map (fun f => match kept f with
                     | Some k => [(k, path_join dir f)]
                     | None => []
                     end) names.

(** The mapping after the entries are added one by one. *)
Definition add_entries (m : modality) (es : list (string * string)) (d : dict)
  : dict :=
  fold_left (fun d e => dict_add m (fst e) (snd e) d) es d.

(** What a directory contributes: its sorted listing, nothing when it is
    missing. *)
Definition listing (fs : filesystem) (dir : string) : list string :=
  match fs dir with
  | Some names => sorted names
  | None => []
  end.

(** The mapping of the grouper: the RGB entries, then the thermal ones. *)
Definition grouped (fs : filesystem) (rgb_dir thermal_dir : string) : dict :=
  add_entries Thermal (entries thermal_dir (listing fs thermal_dir))
    (add_entries RGB (entries rgb_dir (listing fs rgb_dir)) []).

(** The order of [sorted]. *)
Definition le (a b : string) : Prop := String.leb a b = true.

(** ** Paths and directories *)

(** [s] contains the separator. *)
Fixpoint has_sep (s : string) : bool :=
  match s with
  | EmptyString => false
  | String c s' => Ascii.eqb c "/" || has_sep s'
  end.

(** [os.path.basename]: what follows the last separator. *)
Fixpoint basename (s : string) : string :=
  match s with
  | EmptyString => EmptyString
  | String c s' => if has_sep s then basename s' else s
  end.

(** The entries of a directory are base names: [os.listdir] returns no
    name with a separator in it. *)
Definition base_names (fs : filesystem) : Prop :=
  forall d names, fs d = Some names -> Forall (fun n => has_sep n = false) names.

(** The directory scanned for a modality. *)
Definition dir_of (m : modality) (rgb_dir thermal_dir : string) : string :=
  match m with
  | RGB => rgb_dir
  | Thermal => thermal_dir
  end.

(** [fname] is kept and its identifier is [k]. *)
Definition kept_as (k : string) (fname : string) : bool :=
  match kept fname with
  | Some k' => String.eqb k' k
  | None => false
  end.

(** The identifiers a listing contributes, in order, with repetitions. *)
Definition identifiers (names : list string) : list string :=
  flat_map (fun f => match kept f with Some k => [k] | None => [] end) names.

(** ** The batch loop *)

(** The condition of the skip branch of the batch loop:
    [not rgb_files and not thermal_files]. *)
Definition no_data (g : group) : bool :=
  negb (truthy (rgb g)) && negb (truthy (thermal g)).

(** The groups the batch loop does not skip, in iteration order. *)
Definition processed (groups : dict) : dict :=
  filter (fun item => negb (no_data (snd item))) groups.

(** A directory that exists and is empty. *)
Definition with_empty_dir (fs : filesystem) (dir : string) : filesystem :=
  fun d => if String.eqb d dir then Some [] else fs d.

(** Two states of the file system with the same directories and the same
    entries in each; [os.listdir] may return them in another order. *)
Definition same_contents (fs1 fs2 : filesystem) : Prop :=
  forall d, match fs1 d, fs2 d with
            | Some names1, Some names2 => Permutation names1 names2
            | None, None => True
            | _, _ => False
            end.

(** ** Tags of the written document *)

(** The number of [<h2>] tags of a text. *)
Definition count_h2 (s : string) : nat := Str.count_sub "<h2>" s.

(** A text that no [<h2>] can start in and end outside of, on the left:
    it ends in a character other than the first three of the tag. *)
Definition safe_end (c : ascii) : bool :=
  negb (Ascii.eqb c "<") && negb (Ascii.eqb c "h") && negb (Ascii.eqb c "2").

(** On the right: it is empty or starts with a character other than the
    last three of the tag. *)
Definition safe_start (s : string) : bool :=
  match s with
  | EmptyString => true
  | String c _ =>
      negb (Ascii.eqb c "h") && negb (Ascii.eqb c "2") && negb (Ascii.eqb c ">")
  end.

(** ** Sections and events of a run *)

(** The sections and the events of the groups the loop processes, given
    the report text the generator returned for each. *)
Definition sections_of (markdown : string -> string) (items : dict)
    (reports : list string) : list string :=
  map (fun ir => section_html_of (fst (fst ir)) (markdown (snd ir)))
      (combine items reports).

Definition report_events (markdown : string -> string) (items : dict)
    (reports : list string) : list event :=
  flat_map (fun ir =>
              [EvReport (fst (fst ir)) (rgb (snd (fst ir))) (thermal (snd (fst ir)));
               EvGenerate 1024;
               EvPrint (section_html_of (fst (fst ir)) (markdown (snd ir)))])
           (combine items reports).

(** An event the loop may produce for a mapping: a report is asked only
    for a group that is not skipped, and nothing is written. *)
Definition loop_event (groups : dict) (e : event) : Prop :=
  match e with
  | EvReport k r t => In (k, mkGroup r t) (processed groups)
  | EvGenerate n => n = 1024
  | EvPrint _ => True
  | EvWrite _ _ => False
  end.

(** What [os.path.join] puts before a relative name: the directory, and
    a separator unless the directory is empty or ends in one. *)
Definition join_prefix (dir : string) : string :=
  if String.eqb dir "" || Str.endswith dir "/" then dir else dir ++ "/".

(** ** Counting files and reading traces *)

(** [fname] is kept by the grouper. *)
Definition is_kept (fname : string) : bool :=
  match kept fname with
  | Some _ => true
  | None => false
  end.

(** The number of paths the groups of a mapping hold for one modality. *)
Definition total_files (m : modality) (d : dict) : nat :=
  list_sum (map (fun item => List.length (files_of m (snd item))) d).

(** The entries of every directory are pairwise distinct. *)
Definition distinct_names (fs : filesystem) : Prop :=
  forall d names, fs d = Some names -> NoDup names.

(** The image paths of a user content, in order. *)
Definition images_of (content : list content_item) : list string :=
  flat_map (fun item => match item with
                        | ImageItem p => [p]
                        | TextItem _ => []
                        end) content.

(** Its descriptive texts, in order. *)
Definition texts_of (content : list content_item) : list string :=
  flat_map (fun item => match item with
                        | TextItem t => [t]
                        | ImageItem _ => []
                        end) content.

(** The token budgets of the model calls of a trace, in order. *)
Definition budgets_of (events : list event) : list nat :=
  flat_map (fun e => match e with EvGenerate n => [n] | _ => [] end) events.

(** The texts printed, in order. *)
Definition prints_of (events : list event) : list string :=
  flat_map (fun e => match e with EvPrint s => [s] | _ => [] end) events.

(** The files written, in order, each with its content. *)
Definition writes_of (events : list event) : list (string * string) :=
  flat_map (fun e => match e with EvWrite p c => [(p, c)] | _ => [] end) events.

(** * Worked examples *)

(** The scenario of the documentation: three entries in the RGB directory,
    one in the thermal directory. *)
Definition example_fs : filesystem := fun d =>
  if String.eqb d "A" then
    Some ["random.jpg"; "Turbine-2_A_PS_sequence_14.png";
          "Turbine-2_A_PS_sequence_13.jpg"]
  else if String.eqb d "B" then Some ["Turbine-2_A_thermal_01.jpg"]
  else None.

(** The documented scenario with the entries listed in another order. *)
Definition example_fs_reordered : filesystem := fun d =>
  if String.eqb d "A" then
    Some ["Turbine-2_A_PS_sequence_13.jpg"; "random.jpg";
          "Turbine-2_A_PS_sequence_14.png"]
  else if String.eqb d "B" then Some ["Turbine-2_A_thermal_01.jpg"]
  else None.

(** A small provider to run the definitions on.  The model echoes each
    prompt row and adds the token [7]; the decoder reads [7] as the text
    [## Findings]; the converter renders that text as Python-Markdown
    renders a second-level heading, and any other text as a paragraph. *)
Definition example_processor : Processor unit :=
  mkProcessor
    (fun _ => Ok "prompt")
    (fun _ vis => Ok (mkBatch [[1; 2; 3]] vis))
    (fun row => Ok (String.concat " "
                      (map (fun t => if Nat.eqb t 7 then "## Findings" else "?") row))).

Definition example_model : Model unit unit :=
  mkModel (fun inputs n st =>
             (Ok (map (fun row => (row ++ firstn n [7])%list) (input_ids inputs)), st)).

Definition example_vision_info (messages : list message) : result unit := Ok tt.

Definition example_markdown (text : string) : string :=
  if String.eqb text "## Findings" then "<h2>Findings</h2>"
  else "<p>" ++ text ++ "</p>".

Definition example_world : world unit := mkWorld tt [].



(** Providers that fail: a processor whose chat template raises, a model
    whose generation raises, a model that returns no row, and a processor
    that cannot decode. *)
Definition failing_template_processor : Processor unit :=
  mkProcessor
    (fun _ => Raise (ExternalError "template"))
    (processor_call example_processor)
    (decode example_processor).

Definition failing_model : Model unit unit :=
  mkModel (fun _ _ st => (Raise (ExternalError "out of memory"), st)).

Definition silent_model : Model unit unit :=
  mkModel (fun _ _ st => (Ok [], st)).

Definition failing_decode_processor : Processor unit :=
  mkProcessor
    (apply_chat_template example_processor)
    (processor_call example_processor)
    (fun _ => Raise (ExternalError "decode")).

(** A mapping with a group that has no file. *)
Definition example_groups : dict :=
  [("Turbine-1_A", mkGroup [] []);
   ("Turbine-2_B", mkGroup ["A/Turbine-2_B_1.jpg"] [])].

Example pattern_match_ex1 :
  pattern_match "Turbine-2_A_PS_sequence_13.jpg" = Some "Turbine-2_A".
Proof. reflexivity. Qed.

Example pattern_match_ex2 : pattern_match "random.jpg" = None.
Proof. reflexivity. Qed.

Example pattern_match_ex3 : pattern_match "Turbine-12_AB.jpg" = Some "Turbine-12_A".
Proof. reflexivity. Qed.

Example pattern_match_ex4 : pattern_match "Turbine-_A.jpg" = None.
Proof. reflexivity. Qed.

Example is_image_ex1 : is_image "Turbine-2_A.JPG" = true.
Proof. reflexivity. Qed.

Example is_image_ex2 : is_image "Turbine-2_A.jpeg" = false.
Proof. reflexivity. Qed.

Example path_join_ex1 : path_join "data/rgb" "a.jpg" = "data/rgb/a.jpg".
Proof. reflexivity. Qed.

Example path_join_ex2 : path_join "data/rgb/" "a.jpg" = "data/rgb/a.jpg".
Proof. reflexivity. Qed.

Example path_join_ex3 : path_join "" "a.jpg" = "a.jpg".
Proof. reflexivity. Qed.

Example group_files_ex1 :
  group_files_by_turbine_blade example_fs "A" "B" =
  Ok [("Turbine-2_A",
       mkGroup ["A/Turbine-2_A_PS_sequence_13.jpg";
                "A/Turbine-2_A_PS_sequence_14.png"]
               ["B/Turbine-2_A_thermal_01.jpg"])].
Proof. reflexivity. Qed.

Example group_files_ex2 :
  group_files_by_turbine_blade example_fs "missing" "B" =
  Ok [("Turbine-2_A", mkGroup [] ["B/Turbine-2_A_thermal_01.jpg"])].
Proof. reflexivity. Qed.

Example build_user_content_ex1 :
  build_user_content [] ["B/Turbine-6_A_t.jpg"] "Turbine-6_A" =
  [TextItem "Below are 1 thermal images for Turbine-6_A:";
   ImageItem "B/Turbine-6_A_t.jpg"].
Proof. reflexivity. Qed.

Example example_report :
  generate_blade_report example_vision_info ["A/Turbine-2_B_1.jpg"] []
    example_model example_processor "Turbine-2_B" example_world =
  (Ok "## Findings",
   mkWorld tt [EvReport "Turbine-2_B" ["A/Turbine-2_B_1.jpg"] [];
               EvGenerate 1024]).
Proof. reflexivity. Qed.

(** * Properties *)

(** ** Strings *)

Module StrFacts.
Import Str.

Lemma append_nil_r (s : string) : s ++ "" = s.
Proof. induction s as [|c s IH]; simpl; [reflexivity | now rewrite IH]. Qed.

Lemma append_assoc (a b c : string) : (a ++ b) ++ c = a ++ (b ++ c).
Proof. induction a as [|x a IH]; simpl; [reflexivity | now rewrite IH]. Qed.

Lemma length_append (a b : string) :
  String.length (a ++ b) = String.length a + String.length b.
Proof. induction a as [|x a IH]; simpl; [reflexivity | now rewrite IH]. Qed.

Lemma append_inv_head (a b c : string) : a ++ b = a ++ c -> b = c.
Proof.
  induction a as [|x a IH]; simpl; intros H; [assumption|].
  injection H as H. auto.
Qed.

Lemma append_inv_tail (a b c : string) : a ++ c = b ++ c -> a = b.
Proof.
  revert b. induction a as [|x a IH]; intros [|y b] H; simpl in H.
  - reflexivity.
  - apply (f_equal String.length) in H. simpl in H.
    rewrite length_append in H. lia.
  - apply (f_equal String.length) in H. simpl in H.
    rewrite length_append in H. lia.
  - injection H as -> H. f_equal. auto.
Qed.

Lemma lower_append (a b : string) : lower (a ++ b) = lower a ++ lower b.
Proof. induction a as [|x a IH]; simpl; [reflexivity | now rewrite IH]. Qed.

Lemma length_lower (s : string) : String.length (lower s) = String.length s.
Proof. induction s as [|c s IH]; simpl; [reflexivity | now rewrite IH]. Qed.

Lemma strip_prefix_spec (p s r : string) :
  strip_prefix p s = Some r <-> s = p ++ r.
Proof.
  revert s. induction p as [|a p IH]; intros s; simpl.
  - split; [now intros [= ->] | now intros ->].
  - destruct s as [|b s].
    + split; discriminate.
    + destruct (Ascii.eqb_spec a b) as [->|Hne].
      * rewrite IH. split; [now intros -> | now intros [= ->]].
      * split; [discriminate | intros [= H _]; congruence].
Qed.

Lemma span_spec (f : ascii -> bool) (s a b : string) :
  span f s = (a, b) ->
  s = a ++ b /\ forallb f a = true /\
  match b with
  | EmptyString => True
  | String c _ => f c = false
  end.
Proof.
  revert a b. induction s as [|c s IH]; simpl; intros a b H.
  - injection H as <- <-. auto.
  - destruct (f c) eqn:Hc.
    + destruct (span f s) as [a' b'] eqn:Hs.
      injection H as <- <-.
      destruct (IH _ _ eq_refl) as (-> & Ha & Hb).
      simpl. rewrite Hc, Ha. auto.
    + injection H as <- <-. simpl. auto.
Qed.

Lemma span_append (f : ascii -> bool) (a b : string) :
  forallb f a = true ->
  match b with
  | EmptyString => True
  | String c _ => f c = false
  end ->
  span f (a ++ b) = (a, b).
Proof.
  induction a as [|x a IH]; simpl; intros Ha Hb.
  - destruct b as [|c b]; simpl; [reflexivity | now rewrite Hb].
  - apply andb_true_iff in Ha as [Hx Ha]. rewrite Hx, (IH Ha Hb). reflexivity.
Qed.

Lemma forallb_append (f : ascii -> bool) (a b : string) :
  forallb f (a ++ b) = forallb f a && forallb f b.
Proof.
  induction a as [|x a IH]; simpl; [reflexivity|].
  now rewrite IH, andb_assoc.
Qed.

(** [s] cut at position [k]. *)
Lemma substring_split (s : string) (k : nat) :
  k <= String.length s ->
  s = String.substring 0 k s ++ String.substring k (String.length s - k) s.
Proof.
  revert k. induction s as [|c s IH]; intros [|k] Hk; simpl in *.
  - reflexivity.
  - lia.
  - f_equal. specialize (IH 0 (Nat.le_0_l _)).
    simpl in IH. rewrite Nat.sub_0_r in IH.
    destruct s; simpl in *; [reflexivity|].
    injection IH as IH. now f_equal.
  - f_equal. apply IH. lia.
Qed.

Lemma substring_append_tail (a b : string) :
  String.substring (String.length a) (String.length b) (a ++ b) = b.
Proof.
  induction a as [|x a IH]; simpl; [|assumption].
  induction b as [|y b IHb]; simpl; [reflexivity | now rewrite IHb].
Qed.

Lemma endswith_spec (s p : string) :
  endswith s p = true <-> exists q, s = q ++ p.
Proof.
  unfold endswith. rewrite andb_true_iff, Nat.leb_le, String.eqb_eq. split.
  - intros [Hle Hsub].
    exists (String.substring 0 (String.length s - String.length p) s).
    rewrite (substring_split s (k := String.length s - String.length p)) at 1 by lia.
    f_equal. rewrite <- Hsub at 3. f_equal. lia.
  - intros [q ->]. rewrite length_append. split; [lia|].
    replace (String.length q + String.length p - String.length p)
      with (String.length q) by lia.
    apply substring_append_tail.
Qed.

Lemma startswith_spec (s p : string) :
  startswith s p = true <-> exists r, s = p ++ r.
Proof.
  revert s. induction p as [|a p IH]; intros s.
  - destruct s; simpl; split; eauto.
  - destruct s as [|b s]; simpl.
    + split; [discriminate | intros [r H]; discriminate].
    + destruct (Ascii.eqb_spec a b) as [->|Hne]; simpl.
      * rewrite IH. split; intros [r H]; exists r; [now rewrite H | now injection H].
      * split; [discriminate | intros [r H]; injection H; congruence].
Qed.

End StrFacts.

(** ** The identifier pattern *)

Section Pattern.
Import Str StrFacts.

Lemma in_lang_plus_class (f : ascii -> bool) (s : string) :
  in_lang (Plus (Class f)) s <-> s <> "" /\ forallb f s = true.
Proof.
  split.
  - intros H. remember (Plus (Class f)) as r eqn:Hr.
    induction H as [ | | | r s H _ | r s1 s2 H1 _ H2 IH2]; try discriminate.
    + injection Hr as ->. inversion H as [ | f' c Hc | | | ]; subst. simpl.
      split; [discriminate | now rewrite Hc].
    + injection Hr as ->. inversion H1 as [ | f' c Hc | | | ]; subst. simpl.
      destruct (IH2 eq_refl) as [_ IH]. split; [discriminate|].
      now rewrite Hc, IH.
  - intros [Hne Hall]. induction s as [|c s IH]; [congruence|].
    simpl in Hall. apply andb_true_iff in Hall as [Hc Hs].
    destruct s as [|d s].
    + apply in_plus_one. now constructor.
    + change (String c (String d s)) with (String c "" ++ String d s).
      apply in_plus_more; [now constructor|].
      apply IH; [discriminate | assumption].
Qed.

(** The words of the pattern: [Turbine-], one or more digits, [_], one
    upper-case letter. *)
Lemma regex_shape (p : string) :
  in_lang turbine_blade_regex p <->
  exists ds c, p = "Turbine-" ++ ds ++ "_" ++ String c "" /\
               ds <> "" /\ forallb is_digit ds = true /\ is_upper c = true.
Proof.
  unfold turbine_blade_regex. split.
  - intros H. inversion H as [ | | r1 r2 s1 s2 H1 H2 | | ]; subst.
    inversion H1; subst.
    inversion H2 as [ | | r1 r2 s1 s3 H3 H4 | | ]; subst.
    inversion H4 as [ | | r1 r2 s4 s5 H5 H6 | | ]; subst.
    inversion H5; subst. inversion H6 as [ | f' c Hc | | | ]; subst.
    apply in_lang_plus_class in H3 as [Hne Hds]. eauto 10.
  - intros (ds & c & -> & Hne & Hds & Hc).
    apply in_cat; [constructor|].
    apply in_cat; [now apply in_lang_plus_class|].
    apply in_cat; [constructor | now constructor].
Qed.

Lemma underscore_not_digit : is_digit "_" = false.
Proof. reflexivity. Qed.

Theorem pattern_match_iff (fname p : string) :
  pattern_match fname = Some p <-> starts_with_match fname p.
Proof.
  unfold starts_with_match, pattern_match. rewrite regex_shape. split.
  - destruct (strip_prefix "Turbine-" fname) as [r|] eqn:Hr; [|discriminate].
    apply strip_prefix_spec in Hr. subst fname.
    destruct (span is_digit r) as [ds b] eqn:Hsp.
    apply span_spec in Hsp as (-> & Hds & _).
    destruct ds as [|d ds]; [discriminate|].
    destruct b as [|u [|c rest]]; try discriminate.
    destruct (Ascii.eqb_spec u "_") as [->|]; [|discriminate].
    destruct (is_upper c) eqn:Hc; [|discriminate].
    simpl andb. intros [= <-]. split.
    + exists (String d ds), c. repeat split; trivial. discriminate.
    + exists rest. simpl. rewrite append_assoc. reflexivity.
  - intros [(ds & c & -> & Hne & Hds & Hc) [rest ->]].
    rewrite !append_assoc.
    replace (strip_prefix "Turbine-" ("Turbine-" ++ ds ++ "_" ++ String c "" ++ rest))
      with (Some (ds ++ "_" ++ String c "" ++ rest))
      by (symmetry; now apply strip_prefix_spec).
    rewrite span_append by (trivial; apply underscore_not_digit).
    destruct ds as [|d ds]; [congruence|].
    simpl. now rewrite Hc.
Qed.

(** A file name has at most one identifier. *)
Lemma starts_with_match_unique (fname p q : string) :
  starts_with_match fname p -> starts_with_match fname q -> p = q.
Proof.
  intros Hp Hq. apply pattern_match_iff in Hp, Hq. congruence.
Qed.

Lemma pattern_match_none (fname : string) :
  pattern_match fname = None <-> forall p, ~ starts_with_match fname p.
Proof.
  split.
  - intros H p Hp. apply pattern_match_iff in Hp. congruence.
  - intros H. destruct (pattern_match fname) as [p|] eqn:E; [|reflexivity].
    apply pattern_match_iff in E. now apply H in E.
Qed.

(** An identifier starts with [T]. *)
Lemma pattern_match_head (fname p : string) :
  pattern_match fname = Some p -> exists r, fname = String "T" r.
Proof.
  unfold pattern_match.
  destruct (strip_prefix "Turbine-" fname) as [r|] eqn:Hr; [|discriminate].
  apply strip_prefix_spec in Hr. subst fname. simpl. eauto.
Qed.

End Pattern.

(** ** The extension test *)

Lemma lower_split (s a b : string) :
  Str.lower s = a ++ b -> exists x y, s = x ++ y /\ Str.lower x = a /\ Str.lower y = b.
Proof.
  revert a. induction s as [|c s IH]; intros a H; simpl in H.
  - destruct a; [|discriminate]. simpl in H. subst b. exists "", "". auto.
  - destruct a as [|d a]; simpl in H.
    + exists "", (String c s). subst b. auto.
    + injection H as Hd H. destruct (IH _ H) as (x & y & -> & Hx & Hy).
      exists (String c x), y. simpl. rewrite Hd, Hx. auto.
Qed.

Lemma endswith_lower (fname ext : string) :
  Str.endswith (Str.lower fname) ext = true <-> ends_with_nocase fname ext.
Proof.
  rewrite StrFacts.endswith_spec. unfold ends_with_nocase. split.
  - intros [q H]. apply lower_split in H as (x & y & -> & _ & Hy). eauto.
  - intros (stem & e & -> & <-). exists (Str.lower stem).
    apply StrFacts.lower_append.
Qed.

Theorem is_image_iff (fname : string) :
  is_image fname = true <-> has_image_extension fname.
Proof.
  unfold is_image, has_image_extension.
  now rewrite orb_true_iff, !endswith_lower.
Qed.

(** ** The mapping of groups *)

Section Dict.

Lemma mem_In (k : string) (ks : list string) : mem k ks = true <-> In k ks.
Proof.
  unfold mem. rewrite existsb_exists. split.
  - intros (x & Hx & E). apply String.eqb_eq in E. now subst.
  - intros H. exists k. split; [assumption | apply String.eqb_refl].
Qed.

Lemma mem_app (k : string) (a b : list string) :
  mem k (a ++ b)%list = mem k a || mem k b.
Proof. apply existsb_app. Qed.

Lemma dict_get_None (k : string) (d : dict) :
  dict_get k d = None <-> ~ In k (dict_keys d).
Proof.
  induction d as [|[k' g] d IH]; simpl.
  - tauto.
  - destruct (String.eqb_spec k k') as [->|Hne].
    + split; [discriminate | tauto].
    + rewrite IH. split; [intros H [E|I]; congruence || tauto | tauto].
Qed.

Lemma dict_get_mem (k : string) (d : dict) :
  mem k (dict_keys d) = match dict_get k d with Some _ => true | None => false end.
Proof.
  induction d as [|[k' g] d IH]; simpl; [reflexivity|].
  destruct (String.eqb k k'); simpl; auto.
Qed.

Lemma dict_get_In (k : string) (g : group) (d : dict) :
  dict_get k d = Some g -> In (k, g) d.
Proof.
  induction d as [|[k' g'] d IH]; simpl; [discriminate|].
  destruct (String.eqb_spec k k') as [->|Hne].
  - intros [= ->]. now left.
  - intros H. right. auto.
Qed.

Lemma In_dict_get (k : string) (g : group) (d : dict) :
  NoDup (dict_keys d) -> In (k, g) d -> dict_get k d = Some g.
Proof.
  induction d as [|[k' g'] d IH]; simpl; [tauto|].
  intros Hnd [E|I].
  - injection E as -> ->. now rewrite String.eqb_refl.
  - inversion Hnd as [|? ? Hnotin Hnd']; subst.
    destruct (String.eqb_spec k k') as [->|Hne]; [|auto].
    exfalso. apply Hnotin. change (In (fst (k', g)) (map fst d)).
    now apply in_map.
Qed.

Lemma dict_get_app (k : string) (a b : dict) :
  dict_get k (a ++ b)%list =
  match dict_get k a with Some g => Some g | None => dict_get k b end.
Proof.
  induction a as [|[k' g] a IH]; simpl; [reflexivity|].
  destruct (String.eqb k k'); auto.
Qed.

Lemma dict_keys_update (k : string) (f : group -> group) (d : dict) :
  dict_keys (dict_update k f d) = dict_keys d.
Proof.
  induction d as [|[k' g] d IH]; simpl; [reflexivity|].
  destruct (String.eqb k k'); simpl; [reflexivity | now rewrite IH].
Qed.

Lemma dict_get_update (k k' : string) (f : group -> group) (d : dict) :
  dict_get k' (dict_update k f d) =
  if String.eqb k' k then option_map f (dict_get k d) else dict_get k' d.
Proof.
  induction d as [|[k0 g] d IH]; simpl.
  - now destruct (String.eqb k' k).
  - destruct (String.eqb_spec k k0) as [->|Hne]; simpl.
    + destruct (String.eqb_spec k' k0) as [->|Hne']; reflexivity.
    + rewrite IH. destruct (String.eqb_spec k' k0) as [->|Hne'].
      * destruct (String.eqb_spec k0 k); [congruence | reflexivity].
      * reflexivity.
Qed.

Lemma dict_keys_setdefault (k : string) (v : group) (d : dict) :
  dict_keys (setdefault k v d) =
  if mem k (dict_keys d) then dict_keys d else (dict_keys d ++ [k])%list.
Proof.
  unfold setdefault. rewrite dict_get_mem.
  destruct (dict_get k d); [reflexivity|].
  unfold dict_keys. now rewrite map_app.
Qed.

Lemma dict_get_setdefault (k k' : string) (v : group) (d : dict) :
  dict_get k' (setdefault k v d) =
  match dict_get k' d with
  | Some g => Some g
  | None => if String.eqb k' k then Some v else None
  end.
Proof.
  unfold setdefault. destruct (dict_get k d) as [g|] eqn:E.
  - destruct (dict_get k' d) eqn:E'; [reflexivity|].
    destruct (String.eqb_spec k' k); [congruence | reflexivity].
  - rewrite dict_get_app. simpl. reflexivity.
Qed.

(** After [setdefault], the subscription cannot raise. *)
Lemma append_path_setdefault (m : modality) (k p : string) (d : dict) :
  append_path m k p (setdefault k empty_group d) = Ok (dict_add m k p d).
Proof.
  unfold append_path, dict_add. rewrite dict_get_setdefault, String.eqb_refl.
  now destruct (dict_get k d).
Qed.

Lemma dict_keys_add (m : modality) (k p : string) (d : dict) :
  dict_keys (dict_add m k p d) =
  if mem k (dict_keys d) then dict_keys d else (dict_keys d ++ [k])%list.
Proof. unfold dict_add. now rewrite dict_keys_update, dict_keys_setdefault. Qed.

Lemma files_add (m m' : modality) (k k' p : string) (d : dict) :
  files m' k' (dict_add m k p d) =
  (files m' k' d ++
     if modality_eqb m m' && String.eqb k' k then [p] else [])%list.
Proof.
  unfold files, dict_add. rewrite dict_get_update, !dict_get_setdefault.
  rewrite String.eqb_refl.
  destruct (String.eqb_spec k' k) as [->|Hne].
  - destruct (dict_get k d) as [g|]; destruct m, m'; simpl;
      rewrite ?app_nil_r; reflexivity.
  - rewrite andb_false_r, app_nil_r. now destruct (dict_get k' d).
Qed.

End Dict.

(** ** The grouper as a function of the kept entries *)

Section Scan.

Lemma scan_step_eq (m : modality) (dir f : string) (d : dict) :
  scan_step m dir f d =
  Ok match kept f with
     | Some k => dict_add m k (path_join dir f) d
     | None => d
     end.
Proof.
  unfold scan_step, kept, is_image.
  destruct (_ || _); [|reflexivity].
  destruct (pattern_match f) as [k|]; [|reflexivity].
  apply append_path_setdefault.
Qed.

Lemma for_each_scan (m : modality) (dir : string) (names : list string) (d : dict) :
  for_each names d (scan_step m dir) = Ok (add_entries m (entries dir names) d).
Proof.
  revert d. induction names as [|f names IH]; intros d; simpl; [reflexivity|].
  rewrite scan_step_eq. simpl. rewrite IH. unfold add_entries.
  rewrite fold_left_app. destruct (kept f); reflexivity.
Qed.

Lemma scan_dir_eq (m : modality) (fs : filesystem) (dir : string) (d : dict) :
  scan_dir m fs dir d = Ok (add_entries m (entries dir (listing fs dir)) d).
Proof.
  unfold scan_dir, isdir, listdir, listing.
  destruct (fs dir) as [names|]; simpl; [apply for_each_scan | reflexivity].
Qed.

(** The grouper never raises, and its mapping is [grouped]. *)
Lemma group_files_eq (fs : filesystem) (rgb_dir thermal_dir : string) :
  group_files_by_turbine_blade fs rgb_dir thermal_dir =
  Ok (grouped fs rgb_dir thermal_dir).
Proof.
  unfold group_files_by_turbine_blade, grouped.
  rewrite scan_dir_eq. simpl. rewrite scan_dir_eq. reflexivity.
Qed.

Lemma filter_filter {A} (f g : A -> bool) (l : list A) :
  filter f (filter g l) = filter (fun x => g x && f x) l.
Proof.
  induction l as [|x l IH]; simpl; [reflexivity|].
  destruct (g x); simpl; [destruct (f x)|]; now rewrite IH.
Qed.

Lemma keys_add_entries (m : modality) (es : list (string * string)) (d : dict) :
  dict_keys (add_entries m es d) =
  (dict_keys d ++
     filter (fun k => negb (mem k (dict_keys d))) (first_seen (map fst es)))%list.
Proof.
  revert d. induction es as [|[k p] es IH]; intros d; simpl.
  - now rewrite app_nil_r.
  - unfold add_entries in *. simpl. rewrite IH, dict_keys_add.
    destruct (mem k (dict_keys d)) eqn:Hk; simpl.
    + f_equal. rewrite filter_filter. apply filter_ext. intros y.
      destruct (String.eqb_spec y k) as [->|]; simpl; [now rewrite Hk | reflexivity].
    + rewrite <- app_assoc. simpl. do 2 f_equal.
      rewrite filter_filter. apply filter_ext. intros y.
      rewrite mem_app. simpl. rewrite orb_false_r, negb_orb.
      apply andb_comm.
Qed.

Lemma files_add_entries (m m' : modality) (k : string)
    (es : list (string * string)) (d : dict) :
  files m' k (add_entries m es d) =
  (files m' k d ++
     if modality_eqb m m'
     then map snd (filter (fun e => String.eqb (fst e) k) es)
     else [])%list.
Proof.
  revert d. induction es as [|[k' p] es IH]; intros d; simpl.
  - destruct (modality_eqb m m'); now rewrite app_nil_r.
  - unfold add_entries in *. simpl. rewrite IH, files_add.
    rewrite <- app_assoc. f_equal.
    rewrite (String.eqb_sym k' k).
    destruct (modality_eqb m m'); simpl; [|reflexivity].
    destruct (String.eqb k k'); reflexivity.
Qed.

Lemma first_seen_In (k : string) (ks : list string) :
  In k (first_seen ks) <-> In k ks.
Proof.
  induction ks as [|x ks IH]; simpl; [tauto|].
  rewrite filter_In, IH, negb_true_iff, String.eqb_neq.
  destruct (String.eqb_spec k x) as [->|Hne]; [tauto|].
  split; [tauto | intros [E|I]; [congruence | tauto]].
Qed.

Lemma NoDup_filter {A} (f : A -> bool) (l : list A) :
  NoDup l -> NoDup (filter f l).
Proof.
  induction 1 as [|x l Hx Hnd IH]; simpl; [constructor|].
  destruct (f x); [|assumption].
  constructor; [|assumption]. rewrite filter_In. tauto.
Qed.

Lemma NoDup_first_seen (ks : list string) : NoDup (first_seen ks).
Proof.
  induction ks as [|x ks IH]; simpl; constructor.
  - rewrite filter_In, String.eqb_refl. simpl. intros [_ H]. discriminate.
  - now apply NoDup_filter.
Qed.

Lemma NoDup_keys_add_entries (m : modality) (es : list (string * string)) (d : dict) :
  NoDup (dict_keys d) -> NoDup (dict_keys (add_entries m es d)).
Proof.
  intros Hd. rewrite keys_add_entries.
  apply NoDup_app; [assumption | apply NoDup_filter, NoDup_first_seen |].
  intros k Hk Hk'. apply filter_In in Hk' as [_ Hk'].
  apply mem_In in Hk. now rewrite Hk in Hk'.
Qed.

End Scan.

(** ** sorted() *)

Section Sorting.

Lemma ascii_compare_lt_trans (a b c : ascii) :
  Ascii.compare a b = Lt -> Ascii.compare b c = Lt -> Ascii.compare a c = Lt.
Proof.
  unfold Ascii.compare. rewrite !BinNat.N.compare_lt_iff.
  apply BinNat.N.lt_trans.
Qed.

Lemma leb_trans (a b c : string) :
  String.leb a b = true -> String.leb b c = true -> String.leb a c = true.
Proof.
  unfold String.leb. revert b c.
  induction a as [|x a IH]; intros [|y b] [|z c]; simpl; trivial; try discriminate.
  destruct (Ascii.compare x y) eqn:Hxy; try discriminate.
  - apply Ascii.compare_eq_iff in Hxy. subst y.
    destruct (Ascii.compare x z) eqn:Hxz; trivial. apply IH.
  - destruct (Ascii.compare y z) eqn:Hyz; try discriminate.
    + apply Ascii.compare_eq_iff in Hyz. subst z. now rewrite Hxy.
    + now rewrite (ascii_compare_lt_trans _ _ _ Hxy Hyz).
Qed.

Lemma leb_refl (a : string) : String.leb a a = true.
Proof. destruct (String.leb_total a a); assumption. Qed.

Lemma sorted_StronglySorted (l : list string) : StronglySorted le (sorted l).
Proof.
  apply StringSort.StronglySorted_sort.
  intros a b c. apply leb_trans.
Qed.

Lemma sorted_Permutation (l : list string) : Permutation l (sorted l).
Proof. apply StringSort.Permuted_sort. Qed.

Lemma sorted_In (x : string) (l : list string) : In x (sorted l) <-> In x l.
Proof.
  split; apply Permutation_in;
    [apply Permutation_sym|]; apply sorted_Permutation.
Qed.

(** Two sorted lists with the same elements are the same list. *)
Lemma StronglySorted_unique (l1 l2 : list string) :
  StronglySorted le l1 -> StronglySorted le l2 -> Permutation l1 l2 -> l1 = l2.
Proof.
  intros H1. revert l2. induction H1 as [|x l1 Hs1 IH Hx]; intros l2 H2 HP.
  - now apply Permutation_nil in HP.
  - destruct H2 as [|y l2 Hs2 Hy].
    + apply Permutation_sym, Permutation_nil in HP. discriminate.
    + assert (x = y) as <-.
      { assert (Hxin : In x (y :: l2))
          by (apply (Permutation_in _ HP); now left).
        assert (Hyin : In y (x :: l1))
          by (apply (Permutation_in _ (Permutation_sym HP)); now left).
        destruct Hxin as [->|Hxin]; [reflexivity|].
        destruct Hyin as [->|Hyin]; [reflexivity|].
        rewrite Forall_forall in Hx, Hy.
        apply String.leb_antisym; [now apply Hx | now apply Hy]. }
      f_equal. apply IH; [assumption|]. now apply Permutation_cons_inv in HP.
Qed.

(** The order in which [os.listdir] returns the entries does not show
    after [sorted]. *)
Lemma sorted_permutation_eq (l1 l2 : list string) :
  Permutation l1 l2 -> sorted l1 = sorted l2.
Proof.
  intros HP. apply StronglySorted_unique; try apply sorted_StronglySorted.
  eapply Permutation_trans; [apply Permutation_sym, sorted_Permutation|].
  eapply Permutation_trans; [exact HP | apply sorted_Permutation].
Qed.

End Sorting.

(** ** Paths *)

Section Paths.
Import Str StrFacts.

Lemma has_sep_append (a b : string) : has_sep (a ++ b) = has_sep a || has_sep b.
Proof.
  induction a as [|c a IH]; simpl; [reflexivity|].
  now rewrite IH, orb_assoc.
Qed.

Lemma basename_no_sep (s : string) : has_sep s = false -> basename s = s.
Proof. destruct s as [|c s]; simpl; [reflexivity|]. now intros ->. Qed.

Lemma basename_after_sep (a f : string) :
  has_sep f = false -> basename (a ++ "/" ++ f) = f.
Proof.
  intros Hf. induction a as [|c a IH]; simpl.
  - now apply basename_no_sep.
  - rewrite has_sep_append. simpl. rewrite orb_true_r, orb_true_r. exact IH.
Qed.

Lemma no_sep_not_absolute (f : string) :
  has_sep f = false -> startswith f "/" = false.
Proof.
  intros H. destruct (startswith f "/") eqn:E; [|reflexivity].
  apply startswith_spec in E as [r ->]. discriminate.
Qed.

(** The joined path of a base name ends in that name. *)
Lemma basename_path_join (dir f : string) :
  has_sep f = false -> basename (path_join dir f) = f.
Proof.
  intros Hf. unfold path_join. rewrite (no_sep_not_absolute _ Hf).
  destruct (String.eqb_spec dir "") as [->|Hne]; simpl.
  - now apply basename_no_sep.
  - destruct (endswith dir "/") eqn:He.
    + apply endswith_spec in He as [q ->]. rewrite append_assoc.
      now apply basename_after_sep.
    + now apply basename_after_sep.
Qed.

Lemma path_join_inj (dir dir' f f' : string) :
  has_sep f = false -> has_sep f' = false ->
  path_join dir f = path_join dir' f' -> f = f'.
Proof.
  intros Hf Hf' E. apply (f_equal basename) in E.
  now rewrite !basename_path_join in E.
Qed.

End Paths.

(** ** The mapping returned by the grouper *)

Section Grouped.

Lemma kept_iff (fname k : string) :
  kept fname = Some k <-> has_image_extension fname /\ starts_with_match fname k.
Proof.
  unfold kept. rewrite <- is_image_iff, <- pattern_match_iff.
  destruct (is_image fname); split; try tauto; try discriminate.
  intros [H _]. discriminate.
Qed.

Lemma kept_none_iff (fname : string) :
  kept fname = None <->
  ~ has_image_extension fname \/ forall k, ~ starts_with_match fname k.
Proof.
  unfold kept. rewrite <- is_image_iff, <- pattern_match_none.
  destruct (is_image fname).
  - split; [tauto | intros [H|H]; [now elim H | assumption]].
  - split; [intros _; left; discriminate | reflexivity].
Qed.

Lemma map_fst_entries (dir : string) (names : list string) :
  map fst (entries dir names) = identifiers names.
Proof.
  unfold entries, identifiers.
  induction names as [|f names IH]; simpl; [reflexivity|].
  rewrite map_app, IH. now destruct (kept f).
Qed.

Lemma entries_files (dir k : string) (names : list string) :
  map snd (filter (fun e => String.eqb (fst e) k) (entries dir names)) =
  map (path_join dir) (filter (kept_as k) names).
Proof.
  unfold entries, kept_as.
  induction names as [|f names IH]; simpl; [reflexivity|].
  rewrite filter_app, map_app, IH.
  destruct (kept f) as [k'|]; simpl; [|reflexivity].
  destruct (String.eqb k' k); reflexivity.
Qed.

Lemma In_identifiers (k : string) (names : list string) :
  In k (identifiers names) <-> exists f, In f names /\ kept f = Some k.
Proof.
  unfold identifiers. rewrite in_flat_map. split.
  - intros (f & Hf & Hk). exists f. split; [assumption|].
    destruct (kept f) as [k'|]; simpl in Hk; [|tauto].
    destruct Hk as [->|[]]. reflexivity.
  - intros (f & Hf & Hk). exists f. split; [assumption|].
    rewrite Hk. now left.
Qed.

Variable fs : filesystem.
Variables rgb_dir thermal_dir : string.

Let groups := grouped fs rgb_dir thermal_dir.

Lemma grouped_keys :
  dict_keys groups =
  (first_seen (identifiers (listing fs rgb_dir)) ++
   filter (fun k => negb (mem k (identifiers (listing fs rgb_dir))))
          (first_seen (identifiers (listing fs thermal_dir))))%list.
Proof.
  unfold groups, grouped. rewrite !keys_add_entries, !map_fst_entries. simpl.
  assert (Hid : forall l : list string, filter (fun _ => true) l = l).
  { induction l as [|x l IH]; simpl; congruence. }
  rewrite !Hid. f_equal. apply filter_ext. intros k. f_equal.
  apply eq_true_iff_eq. now rewrite !mem_In, first_seen_In.
Qed.

Lemma grouped_files (m : modality) (k : string) :
  files m k groups =
  map (path_join (dir_of m rgb_dir thermal_dir))
      (filter (kept_as k) (listing fs (dir_of m rgb_dir thermal_dir))).
Proof.
  unfold groups, grouped. rewrite !files_add_entries.
  unfold files at 1. simpl dict_get. simpl.
  destruct m; simpl; rewrite ?app_nil_r; apply entries_files.
Qed.

Lemma grouped_NoDup : NoDup (dict_keys groups).
Proof.
  unfold groups, grouped. do 2 apply NoDup_keys_add_entries. constructor.
Qed.

(** The group stored under a key holds exactly the kept files with that
    identifier, directory by directory, in listing order. *)
Lemma grouped_In (k : string) (g : group) :
  In (k, g) groups ->
  forall m, files_of m g =
            map (path_join (dir_of m rgb_dir thermal_dir))
                (filter (kept_as k) (listing fs (dir_of m rgb_dir thermal_dir))).
Proof.
  intros HIn m. apply In_dict_get in HIn; [|apply grouped_NoDup].
  rewrite <- grouped_files. unfold files. now rewrite HIn.
Qed.

Lemma grouped_key_seen (k : string) :
  In k (dict_keys groups) <->
  exists m f, In f (listing fs (dir_of m rgb_dir thermal_dir)) /\ kept f = Some k.
Proof.
  rewrite grouped_keys, in_app_iff, filter_In, !first_seen_In, !In_identifiers.
  split.
  - intros [(f & Hf & Hk) | [(f & Hf & Hk) _]].
    + now exists RGB, f.
    + now exists Thermal, f.
  - intros ([|] & f & Hf & Hk); simpl in Hf.
    + left. now exists f.
    + destruct (mem k (identifiers (listing fs rgb_dir))) eqn:Hm.
      * left. apply mem_In, In_identifiers in Hm. exact Hm.
      * right. split; [now exists f | reflexivity].
Qed.

Lemma listing_In (d f : string) :
  In f (listing fs d) <-> exists names, fs d = Some names /\ In f names.
Proof.
  unfold listing. destruct (fs d) as [names|].
  - rewrite sorted_In. split; [eauto | now intros (? & [= <-] & ?)].
  - simpl. split; [tauto | now intros (? & [=] & _)].
Qed.

End Grouped.

Section GrouperFacts.

Variable fs : filesystem.
Variables rgb_dir thermal_dir : string.

(** Where a path in a group comes from. *)
Lemma grouped_path_origin (k : string) (g : group) (m : modality) (p : string) :
  In (k, g) (grouped fs rgb_dir thermal_dir) ->
  In p (files_of m g) ->
  exists names f,
    fs (dir_of m rgb_dir thermal_dir) = Some names /\ In f names /\
    kept f = Some k /\ p = path_join (dir_of m rgb_dir thermal_dir) f.
Proof.
  intros Hg Hp. rewrite (grouped_In _ _ _ _ _ Hg m) in Hp.
  apply in_map_iff in Hp as (f & <- & Hf).
  apply filter_In in Hf as [Hf Hk].
  apply listing_In in Hf as (names & Hfs & Hf).
  exists names, f. repeat split; trivial.
  unfold kept_as in Hk. destruct (kept f) as [k'|]; [|discriminate].
  apply String.eqb_eq in Hk. now subst.
Qed.

Lemma In_keys_entry (k : string) (d : dict) :
  In k (dict_keys d) -> exists g, In (k, g) d.
Proof.
  unfold dict_keys. rewrite in_map_iff. intros ([k' g] & E & H).
  simpl in E. subst. eauto.
Qed.

(** A kept file is in the group of its identifier. *)
Lemma grouped_kept_file (m : modality) (names : list string) (f k : string) :
  fs (dir_of m rgb_dir thermal_dir) = Some names -> In f names ->
  kept f = Some k ->
  exists g, In (k, g) (grouped fs rgb_dir thermal_dir) /\
            In (path_join (dir_of m rgb_dir thermal_dir) f) (files_of m g).
Proof.
  intros Hfs Hf Hk.
  assert (Hl : In f (listing fs (dir_of m rgb_dir thermal_dir)))
    by (apply listing_In; eauto).
  destruct (In_keys_entry k (grouped fs rgb_dir thermal_dir)) as [g Hg].
  { apply grouped_key_seen. eauto. }
  exists g. split; [assumption|].
  rewrite (grouped_In _ _ _ _ _ Hg m). apply in_map.
  apply filter_In. split; [assumption|].
  unfold kept_as. rewrite Hk. apply String.eqb_refl.
Qed.

Lemma grouped_unique_value (k : string) (g g' : group) :
  In (k, g) (grouped fs rgb_dir thermal_dir) ->
  In (k, g') (grouped fs rgb_dir thermal_dir) -> g = g'.
Proof.
  intros H H'.
  apply In_dict_get in H, H'; try apply grouped_NoDup. congruence.
Qed.

Lemma grouped_not_empty (k : string) (g : group) :
  In (k, g) (grouped fs rgb_dir thermal_dir) -> no_data g = false.
Proof.
  intros Hg.
  assert (Hk : In k (dict_keys (grouped fs rgb_dir thermal_dir))).
  { change k with (fst (k, g)). now apply in_map. }
  apply grouped_key_seen in Hk as (m & f & Hf & Hk).
  assert (Hin : In (path_join (dir_of m rgb_dir thermal_dir) f) (files_of m g)).
  { rewrite (grouped_In _ _ _ _ _ Hg m). apply in_map, filter_In.
    split; [assumption|]. unfold kept_as. rewrite Hk. apply String.eqb_refl. }
  unfold no_data. destruct m; simpl in Hin.
  - destruct (rgb g); [destruct Hin | reflexivity].
  - destruct (thermal g); [destruct Hin|]. apply andb_false_r.
Qed.

End GrouperFacts.

Lemma base_names_example_fs : base_names example_fs.
Proof.
  intros d names. unfold example_fs.
  destruct (String.eqb d "A"); [intros [= <-]; repeat constructor|].
  destruct (String.eqb d "B"); [intros [= <-]; repeat constructor|].
  discriminate.
Qed.

(** * The file grouper *)

(** C1. A file of the RGB or of the thermal directory whose name starts
    with a match of [Turbine-<digits>_<upper-case letter>] and ends, letter
    case apart, in [.jpg] or [.png] is placed in exactly one group: its
    joined path is in the list, for the modality of its directory, of the
    group stored under the matched prefix; no group under another key
    holds it in either list; and one group only is stored under that
    prefix. *)
Theorem group_files_places_matching_file
    (fs : filesystem) (rgb_dir thermal_dir : string) (m : modality)
    (names : list string) (fname prefix : string) :
  base_names fs ->
  fs (dir_of m rgb_dir thermal_dir) = Some names ->
  In fname names ->
  starts_with_match fname prefix ->
  has_image_extension fname ->
  exists groups,
    group_files_by_turbine_blade fs rgb_dir thermal_dir = Ok groups /\
    (exists g, In (prefix, g) groups /\
               In (path_join (dir_of m rgb_dir thermal_dir) fname) (files_of m g)) /\
    (forall k g m', In (k, g) groups ->
       In (path_join (dir_of m rgb_dir thermal_dir) fname) (files_of m' g) ->
       k = prefix) /\
    (forall g g', In (prefix, g) groups -> In (prefix, g') groups -> g = g').
Proof.
  intros Hbase Hfs Hin Hmatch Hext.
  assert (Hk : kept fname = Some prefix) by (apply kept_iff; auto).
  exists (grouped fs rgb_dir thermal_dir).
  split; [apply group_files_eq|]. split; [|split].
  - eapply grouped_kept_file; eauto.
  - intros k g m' Hg Hp.
    destruct (grouped_path_origin _ _ _ _ _ _ _ Hg Hp)
      as (names' & f' & Hfs' & Hf' & Hk' & E).
    assert (fname = f') as <-.
    { apply (path_join_inj _ _ _ _) in E; trivial.
      - pose proof (Hbase _ _ Hfs) as HF. rewrite Forall_forall in HF. auto.
      - pose proof (Hbase _ _ Hfs') as HF. rewrite Forall_forall in HF. auto. }
    congruence.
  - apply grouped_unique_value.
Qed.

Lemma group_files_places_matching_file_witness :
  exists groups,
    group_files_by_turbine_blade example_fs "A" "B" = Ok groups /\
    (exists g, In ("Turbine-2_A", g) groups /\
               In (path_join "A" "Turbine-2_A_PS_sequence_14.png") (rgb g)) /\
    (forall k g m', In (k, g) groups ->
       In (path_join "A" "Turbine-2_A_PS_sequence_14.png") (files_of m' g) ->
       k = "Turbine-2_A") /\
    (forall g g', In ("Turbine-2_A", g) groups -> In ("Turbine-2_A", g') groups ->
                  g = g').
Proof.
  apply (@group_files_places_matching_file example_fs "A" "B" RGB
           ["random.jpg"; "Turbine-2_A_PS_sequence_14.png";
            "Turbine-2_A_PS_sequence_13.jpg"]
           "Turbine-2_A_PS_sequence_14.png" "Turbine-2_A").
  - exact base_names_example_fs.
  - reflexivity.
  - simpl. auto.
  - apply pattern_match_iff. reflexivity.
  - apply is_image_iff. reflexivity.
Defined.

(** C2. A file whose name does not start with a match of the pattern, or
    does not end, letter case apart, in [.jpg] or [.png], is in no list of
    any group, and the grouper returns normally. *)
Theorem group_files_excludes_other_files
    (fs : filesystem) (rgb_dir thermal_dir : string) (m : modality)
    (names : list string) (fname : string) :
  base_names fs ->
  fs (dir_of m rgb_dir thermal_dir) = Some names ->
  In fname names ->
  (forall p, ~ starts_with_match fname p) \/ ~ has_image_extension fname ->
  exists groups,
    group_files_by_turbine_blade fs rgb_dir thermal_dir = Ok groups /\
    forall k g, In (k, g) groups ->
      ~ In (path_join (dir_of m rgb_dir thermal_dir) fname) (rgb g) /\
      ~ In (path_join (dir_of m rgb_dir thermal_dir) fname) (thermal g).
Proof.
  intros Hbase Hfs Hin Hno.
  assert (Hk : kept fname = None) by (apply kept_none_iff; tauto).
  exists (grouped fs rgb_dir thermal_dir).
  split; [apply group_files_eq|].
  assert (H : forall k g m', In (k, g) (grouped fs rgb_dir thermal_dir) ->
            ~ In (path_join (dir_of m rgb_dir thermal_dir) fname) (files_of m' g)).
  { intros k g m' Hg Hp.
    destruct (grouped_path_origin _ _ _ _ _ _ _ Hg Hp)
      as (names' & f' & Hfs' & Hf' & Hk' & E).
    assert (fname = f') as <-; [|congruence].
    apply (path_join_inj _ _ _ _) in E; trivial.
    - pose proof (Hbase _ _ Hfs) as HF. rewrite Forall_forall in HF. auto.
    - pose proof (Hbase _ _ Hfs') as HF. rewrite Forall_forall in HF. auto. }
  intros k g Hg. split; [apply (H k g RGB Hg) | apply (H k g Thermal Hg)].
Qed.

Lemma group_files_excludes_other_files_witness :
  exists groups,
    group_files_by_turbine_blade example_fs "A" "B" = Ok groups /\
    forall k g, In (k, g) groups ->
      ~ In (path_join "A" "random.jpg") (rgb g) /\
      ~ In (path_join "A" "random.jpg") (thermal g).
Proof.
  apply (@group_files_excludes_other_files example_fs "A" "B" RGB
           ["random.jpg"; "Turbine-2_A_PS_sequence_14.png";
            "Turbine-2_A_PS_sequence_13.jpg"] "random.jpg").
  - exact base_names_example_fs.
  - reflexivity.
  - simpl. auto.
  - left. apply pattern_match_none. reflexivity.
Defined.

(** C5. The keys of the returned mapping are pairwise distinct and stand
    in first-seen order: the identifiers of the sorted RGB listing, each at
    its first occurrence, then those of the sorted thermal listing that the
    RGB listing did not show.  The two lists of a group hold the joined
    paths of the kept files with that identifier, in the order of the
    sorted listing of their directory; a sorted listing is the directory's
    entries rearranged in ascending order. *)
Theorem group_files_first_seen_order
    (fs : filesystem) (rgb_dir thermal_dir : string) :
  exists groups,
    group_files_by_turbine_blade fs rgb_dir thermal_dir = Ok groups /\
    NoDup (dict_keys groups) /\
    dict_keys groups =
      (first_seen (identifiers (listing fs rgb_dir)) ++
       filter (fun k => negb (mem k (identifiers (listing fs rgb_dir))))
              (first_seen (identifiers (listing fs thermal_dir))))%list /\
    (forall k g, In (k, g) groups ->
       rgb g = map (path_join rgb_dir)
                   (filter (kept_as k) (listing fs rgb_dir)) /\
       thermal g = map (path_join thermal_dir)
                       (filter (kept_as k) (listing fs thermal_dir))) /\
    (forall d names, fs d = Some names ->
       Permutation names (listing fs d) /\ StronglySorted le (listing fs d)).
Proof.
  exists (grouped fs rgb_dir thermal_dir).
  split; [apply group_files_eq|].
  split; [apply grouped_NoDup|].
  split; [apply grouped_keys|]. split.
  - intros k g Hg.
    split; [apply (grouped_In _ _ _ _ _ Hg RGB) | apply (grouped_In _ _ _ _ _ Hg Thermal)].
  - intros d names Hd. unfold listing. rewrite Hd.
    split; [apply sorted_Permutation | apply sorted_StronglySorted].
Qed.

(** C7. When a supplied path is not an existing directory the grouper
    returns normally, every group has an empty list for that side, and the
    mapping is the one obtained with an existing, empty directory at that
    path.  With [m] the thermal side: an absent thermal directory leaves
    every group with an empty thermal list. *)
Theorem group_files_missing_directory
    (fs : filesystem) (rgb_dir thermal_dir : string) (m : modality) :
  fs (dir_of m rgb_dir thermal_dir) = None ->
  exists groups,
    group_files_by_turbine_blade fs rgb_dir thermal_dir = Ok groups /\
    (forall k g, In (k, g) groups -> files_of m g = []) /\
    group_files_by_turbine_blade
      (with_empty_dir fs (dir_of m rgb_dir thermal_dir)) rgb_dir thermal_dir
    = Ok groups.
Proof.
  intros Hnone. exists (grouped fs rgb_dir thermal_dir).
  split; [apply group_files_eq|]. split.
  - intros k g Hg. rewrite (grouped_In _ _ _ _ _ Hg m).
    unfold listing. now rewrite Hnone.
  - rewrite group_files_eq. f_equal. unfold grouped.
    assert (Hl : forall d,
      listing (with_empty_dir fs (dir_of m rgb_dir thermal_dir)) d = listing fs d).
    { intros d. unfold listing, with_empty_dir.
      destruct (String.eqb_spec d (dir_of m rgb_dir thermal_dir)) as [->|];
        [now rewrite Hnone | reflexivity]. }
    now rewrite !Hl.
Qed.

Lemma group_files_missing_directory_witness :
  exists groups,
    group_files_by_turbine_blade example_fs "A" "missing" = Ok groups /\
    (forall k g, In (k, g) groups -> thermal g = []) /\
    group_files_by_turbine_blade (with_empty_dir example_fs "missing") "A" "missing"
    = Ok groups.
Proof.
  apply (@group_files_missing_directory example_fs "A" "missing" Thermal).
  reflexivity.
Defined.

(** C8. Two runs of the grouper over unchanged directory contents return
    the same mapping: the same keys in the same order, with the same lists
    in the same order, whatever the order in which the entries of a
    directory are listed. *)
Theorem group_files_repeatable
    (fs1 fs2 : filesystem) (rgb_dir thermal_dir : string) :
  same_contents fs1 fs2 ->
  exists groups,
    group_files_by_turbine_blade fs1 rgb_dir thermal_dir = Ok groups /\
    group_files_by_turbine_blade fs2 rgb_dir thermal_dir = Ok groups.
Proof.
  intros Hsame. exists (grouped fs1 rgb_dir thermal_dir).
  split; [apply group_files_eq|]. rewrite group_files_eq. f_equal.
  assert (Hl : forall d, listing fs2 d = listing fs1 d).
  { intros d. unfold listing. specialize (Hsame d).
    destruct (fs1 d), (fs2 d); try tauto.
    symmetry. now apply sorted_permutation_eq. }
  unfold grouped. now rewrite !Hl.
Qed.

Lemma same_contents_example : same_contents example_fs example_fs_reordered.
Proof.
  intros d. unfold example_fs, example_fs_reordered.
  destruct (String.eqb d "A").
  - apply Permutation_sym.
    apply (Permutation_cons_append
             ["random.jpg"; "Turbine-2_A_PS_sequence_14.png"]
             "Turbine-2_A_PS_sequence_13.jpg").
  - destruct (String.eqb d "B"); [apply Permutation_refl | exact I].
Qed.

Lemma group_files_repeatable_witness :
  exists groups,
    group_files_by_turbine_blade example_fs "A" "B" = Ok groups /\
    group_files_by_turbine_blade example_fs_reordered "A" "B" = Ok groups.
Proof.
  apply (@group_files_repeatable example_fs example_fs_reordered "A" "B").
  exact same_contents_example.
Defined.

(** * The report generator *)

Lemma fold_append_images (paths : list string) (acc : list content_item) :
  fold_left (fun uc p => append uc (ImageItem p)) paths acc =
  (acc ++ map ImageItem paths)%list.
Proof.
  revert acc. induction paths as [|p paths IH]; intros acc; simpl.
  - now rewrite app_nil_r.
  - rewrite IH. unfold append. now rewrite <- app_assoc.
Qed.

Lemma guarded_block (m : modality) (paths : list string) (identifier : string)
    (acc : list content_item) :
  (if truthy paths then
     fold_left (fun uc p => append uc (ImageItem p)) paths
       (append acc
          (TextItem ("Below are " ++ str_of_nat (List.length paths) ++ " "
                     ++ modality_label m ++ " images for " ++ identifier ++ ":")))
   else acc) = (acc ++ spec_block m paths identifier)%list.
Proof.
  destruct paths as [|p paths].
  - simpl. now rewrite app_nil_r.
  - cbn [truthy spec_block]. rewrite fold_append_images. unfold append.
    now rewrite <- app_assoc.
Qed.

(** C3. The user content is the RGB block followed by the thermal block; a
    block is empty for an empty list and otherwise is the text item
    [Below are N <modality> images for <identifier>:], with [N] the length
    of the list, followed by one image item per path in list order. *)
Theorem user_content_is_rgb_block_then_thermal_block
    (rgb_image_paths thermal_image_paths : list string)
    (turbine_blade_prefix : string) :
  build_user_content rgb_image_paths thermal_image_paths turbine_blade_prefix =
  (spec_block RGB rgb_image_paths turbine_blade_prefix ++
   spec_block Thermal thermal_image_paths turbine_blade_prefix)%list.
Proof.
  unfold build_user_content.
  pose proof (guarded_block RGB rgb_image_paths turbine_blade_prefix []) as Hr.
  cbn [modality_label] in Hr.
  replace (" " ++ "RGB" ++ " images for " ++ turbine_blade_prefix ++ ":")
    with (" RGB images for " ++ turbine_blade_prefix ++ ":") in Hr by reflexivity.
  rewrite Hr. clear Hr.
  pose proof (guarded_block Thermal thermal_image_paths turbine_blade_prefix
                ([] ++ spec_block RGB rgb_image_paths turbine_blade_prefix)%list) as Ht.
  cbn [modality_label] in Ht.
  replace (" " ++ "thermal" ++ " images for " ++ turbine_blade_prefix ++ ":")
    with (" thermal images for " ++ turbine_blade_prefix ++ ":") in Ht by reflexivity.
  rewrite Ht. reflexivity.
Qed.

Lemma skipn_prompt {A} (prompt rest : list A) :
  skipn (List.length prompt) (prompt ++ rest) = rest.
Proof. induction prompt as [|x prompt IH]; simpl; auto. Qed.

Lemma trim_prompt_cons (prompt new_tokens : list token)
    (ins outs : list (list token)) :
  trim_prompt (prompt :: ins) ((prompt ++ new_tokens)%list :: outs) =
  new_tokens :: trim_prompt ins outs.
Proof. unfold trim_prompt. cbn [combine map]. now rewrite skipn_prompt. Qed.

(** C9. The model is called once, with [max_new_tokens = 1024]; when the
    first output row is the prompt row followed by the generated tokens,
    the returned string is the decoding of these generated tokens alone,
    as the decoder gives it: nothing is added, checked or retried. *)
Theorem report_is_decoded_first_completion
    (St vision : Type) (process_vision_info : list message -> result vision)
    (rgb_image_paths thermal_image_paths : list string)
    (model : Model St vision) (processor : Processor vision)
    (turbine_blade_prefix : string) (w : world St)
    (text : string) (vis : vision) (inputs : BatchFeature vision)
    (prompt new_tokens : list token)
    (more_prompts more_outputs : list (list token))
    (st' : St) (completion : string) (more_texts : list string) :
  apply_chat_template processor
    (build_messages rgb_image_paths thermal_image_paths turbine_blade_prefix)
    = Ok text ->
  process_vision_info
    (build_messages rgb_image_paths thermal_image_paths turbine_blade_prefix)
    = Ok vis ->
  processor_call processor [text] vis = Ok inputs ->
  input_ids inputs = prompt :: more_prompts ->
  generate model inputs 1024 (model_state w) =
    (Ok ((prompt ++ new_tokens)%list :: more_outputs), st') ->
  decode processor new_tokens = Ok completion ->
  batch_decode processor (trim_prompt more_prompts more_outputs) = Ok more_texts ->
  generate_blade_report process_vision_info rgb_image_paths thermal_image_paths
    model processor turbine_blade_prefix w =
  (Ok completion,
   mkWorld st'
     (trace w ++
      [EvReport turbine_blade_prefix rgb_image_paths thermal_image_paths;
       EvGenerate 1024])).
Proof.
  intros Htext Hvis Hinputs Hids Hgen Hdec Hmore.
  unfold generate_blade_report, call_generate, bind, emit, lift.
  rewrite Htext, Hvis, Hinputs. cbn [model_state trace].
  rewrite Hgen, Hids, trim_prompt_cons.
  cbn [batch_decode]. rewrite Hdec, Hmore. cbn [rbind first].
  now rewrite <- app_assoc.
Qed.

Lemma report_is_decoded_first_completion_witness :
  generate_blade_report example_vision_info ["A/Turbine-2_B_1.jpg"] []
    example_model example_processor "Turbine-2_B" example_world =
  (Ok "## Findings",
   mkWorld tt
     (trace example_world ++
      [EvReport "Turbine-2_B" ["A/Turbine-2_B_1.jpg"] []; EvGenerate 1024])).
Proof.
  apply (@report_is_decoded_first_completion unit unit example_vision_info
           ["A/Turbine-2_B_1.jpg"] [] example_model example_processor
           "Turbine-2_B" example_world "prompt" tt (mkBatch [[1; 2; 3]] tt)
           [1; 2; 3] [7] [] [] tt "## Findings" []);
    reflexivity.
Defined.

(** * The written document *)

Section Counting.
Import Str StrFacts.

Ltac eqb_cases :=
  repeat match goal with
         | |- context [Ascii.eqb ?a ?b] =>
             destruct (Ascii.eqb_spec a b);
             try congruence; subst; cbn [andb negb] in *
         end.

Lemma startswith_h2_safe_start (x : ascii) (a b : string) :
  safe_start b = true ->
  startswith (String x a ++ b) "<h2>" = startswith (String x a) "<h2>".
Proof.
  intros Hb.
  destruct a as [|y [|z [|u a]]]; destruct b as [|c b];
    cbn [startswith String.append safe_start] in *; trivial;
    eqb_cases; try reflexivity; try (vm_compute in Hb; discriminate).
Qed.

Lemma count_h2_safe_start (a b : string) :
  safe_start b = true -> count_h2 (a ++ b) = count_h2 a + count_h2 b.
Proof.
  intros Hb. induction a as [|x a IH]; [reflexivity|].
  change (count_h2 (String x a ++ b))
    with ((if startswith (String x a ++ b) "<h2>" then 1 else 0) + count_h2 (a ++ b)).
  rewrite startswith_h2_safe_start by exact Hb. rewrite IH.
  change (count_h2 (String x a))
    with ((if startswith (String x a) "<h2>" then 1 else 0) + count_h2 a).
  lia.
Qed.

Lemma startswith_h2_safe_end (x c : ascii) (a b : string) :
  safe_end c = true ->
  startswith (String x (a ++ String c b)) "<h2>" =
  startswith (String x (a ++ String c "")) "<h2>".
Proof.
  intros Hc. unfold safe_end in Hc.
  destruct a as [|y [|z [|u a]]]; cbn [startswith String.append]; trivial;
    eqb_cases; try reflexivity; try (vm_compute in Hc; discriminate).
Qed.

Lemma count_h2_safe_end (a b : string) (c : ascii) :
  safe_end c = true ->
  count_h2 (a ++ String c b) = count_h2 (a ++ String c "") + count_h2 b.
Proof.
  intros Hc. induction a as [|x a IH].
  - unfold count_h2. cbn [String.append count_sub startswith]. unfold safe_end in Hc.
    eqb_cases; try reflexivity; vm_compute in Hc; discriminate.
  - change (count_h2 (String x a ++ String c b))
      with ((if startswith (String x (a ++ String c b)) "<h2>" then 1 else 0)
            + count_h2 (a ++ String c b)).
    rewrite startswith_h2_safe_end by exact Hc. rewrite IH.
    change (count_h2 (String x a ++ String c ""))
      with ((if startswith (String x (a ++ String c "")) "<h2>" then 1 else 0)
            + count_h2 (a ++ String c "")).
    lia.
Qed.

(** A text without [<] has no tag. *)
Lemma count_h2_no_lt (s : string) :
  forallb (fun c => negb (Ascii.eqb c "<")) s = true -> count_h2 s = 0.
Proof.
  induction s as [|c s IH]; [reflexivity|].
  simpl forallb. rewrite andb_true_iff. intros [Hc Hs].
  unfold count_h2 in *. cbn [count_sub startswith]. rewrite (IH Hs).
  rewrite Ascii.eqb_sym. apply negb_true_iff in Hc. now rewrite Hc.
Qed.

Lemma count_h2_section (prefix report_html : string) :
  count_h2 (section_html_of prefix report_html) =
  1 + count_h2 prefix + count_h2 report_html.
Proof.
  unfold section_html_of.
  set (tail := "</h2>" ++ nl ++ "<div>" ++ report_html ++ "</div>").
  change ("<h2>Report for " ++ prefix ++ tail)
    with ("<h2>Report for" ++ String " " (prefix ++ tail)).
  rewrite (@count_h2_safe_end "<h2>Report for" (prefix ++ tail) " " eq_refl).
  rewrite (@count_h2_safe_start prefix tail eq_refl).
  subst tail.
  change ("</h2>" ++ nl ++ "<div>" ++ report_html ++ "</div>")
    with (("</h2>" ++ nl ++ "<div") ++ String ">" (report_html ++ "</div>")).
  rewrite (@count_h2_safe_end ("</h2>" ++ nl ++ "<div") (report_html ++ "</div>")
             ">" eq_refl).
  rewrite (@count_h2_safe_start report_html "</div>" eq_refl).
  change (count_h2 ("<h2>Report for" ++ " ")) with 1.
  change (count_h2 (("</h2>" ++ nl ++ "<div") ++ ">")) with 0.
  change (count_h2 "</div>") with 0.
  lia.
Qed.

Lemma count_h2_join (sections : list string) :
  count_h2 (join_with nl sections) = list_sum (map count_h2 sections).
Proof.
  induction sections as [|s [|s' rest] IH]; [reflexivity | simpl; lia |].
  change (join_with nl (s :: s' :: rest))
    with (s ++ String (ascii_of_nat 10) (join_with nl (s' :: rest))).
  rewrite (@count_h2_safe_start s
             (String (ascii_of_nat 10) (join_with nl (s' :: rest))) eq_refl).
  pose proof (@count_h2_safe_end "" (join_with nl (s' :: rest))
                (ascii_of_nat 10) eq_refl) as Hnl.
  change (count_h2 (String (ascii_of_nat 10) (join_with nl (s' :: rest))) =
          0 + count_h2 (join_with nl (s' :: rest))) in Hnl.
  rewrite Hnl, IH. cbn [map list_sum fold_right]. lia.
Qed.

(** The skeleton adds no tag: the tags of the document are those of its
    sections. *)
Lemma count_h2_document (sections : list string) :
  count_h2 (html_document sections) = list_sum (map count_h2 sections).
Proof.
  unfold html_document.
  set (head := "<html>" ++ nl ++ "  <head>" ++ nl ++ "    <meta charset='UTF-8'>"
               ++ nl ++ "    <title>Turbine Inspection Reports</title>" ++ nl ++
               "  </head>" ++ nl ++ "  <body>").
  set (tail := nl ++ "  </body>" ++ nl ++ "</html>").
  change (count_h2 (head ++ String (ascii_of_nat 10) (join_with nl sections ++ tail)) =
          list_sum (map count_h2 sections)).
  rewrite (@count_h2_safe_end head (join_with nl sections ++ tail)
             (ascii_of_nat 10) eq_refl).
  rewrite (@count_h2_safe_start (join_with nl sections) tail eq_refl).
  rewrite count_h2_join.
  change (count_h2 (head ++ String (ascii_of_nat 10) "")) with 0.
  change (count_h2 tail) with 0.
  lia.
Qed.

End Counting.

(** * The run *)

Section RunFacts.

Variables St vision : Type.
Variable process_vision_info : list message -> result vision.
Variable markdown : string -> string.
Variable model : Model St vision.
Variable processor : Processor vision.

Let report rgb_paths thermal_paths prefix :=
  generate_blade_report process_vision_info rgb_paths thermal_paths
                        model processor prefix.

Lemma generate_blade_report_trace (rgb_paths thermal_paths : list string)
    (prefix : string) (w : world St) :
  exists new,
    trace (snd (report rgb_paths thermal_paths prefix w)) =
      (trace w ++ EvReport prefix rgb_paths thermal_paths :: new)%list /\
    (new = [] \/ new = [EvGenerate 1024]) /\
    (forall s, fst (report rgb_paths thermal_paths prefix w) = Ok s ->
               new = [EvGenerate 1024]).
Proof.
  unfold report, generate_blade_report, call_generate, bind, emit, lift.
  cbn [model_state trace].
  destruct (apply_chat_template processor _) as [text|e];
    [|exists []; cbn; repeat split; auto; discriminate].
  destruct (process_vision_info _) as [vis|e];
    [|exists []; cbn; repeat split; auto; discriminate].
  destruct (processor_call processor _ _) as [inputs|e];
    [|exists []; cbn; repeat split; auto; discriminate].
  exists [EvGenerate 1024].
  destruct (generate model inputs 1024 _) as [[outs|e] st];
    [|cbn; rewrite <- app_assoc; repeat split; auto].
  destruct (batch_decode processor _) as [texts|e];
    cbn; rewrite <- app_assoc; repeat split; auto.
Qed.

Let body := process_group process_vision_info markdown model processor.

Lemma process_group_skip (k : string) (g : group) (acc : list string) (w : world St) :
  no_data g = true -> body (k, g) acc w = (Ok acc, w).
Proof.
  unfold body, process_group, no_data. now intros ->.
Qed.

Lemma process_group_run (k : string) (g : group) (acc : list string) (w : world St) :
  no_data g = false ->
  body (k, g) acc w =
  match report (rgb g) (thermal g) k w with
  | (Ok rep, w1) =>
      (Ok (acc ++ [section_html_of k (markdown rep)])%list,
       mkWorld (model_state w1)
               (trace w1 ++ [EvPrint (section_html_of k (markdown rep))]))
  | (Raise e, w1) => (Raise e, w1)
  end.
Proof.
  unfold body, process_group, no_data, report. intros ->.
  unfold bind at 1.
  destruct (generate_blade_report _ _ _ _ _ _ w) as [[rep|e] w1]; reflexivity.
Qed.

Lemma processed_skip (k : string) (g : group) (groups : dict) :
  no_data g = true -> processed ((k, g) :: groups) = processed groups.
Proof. unfold processed. cbn [filter snd]. now intros ->. Qed.

Lemma processed_keep (k : string) (g : group) (groups : dict) :
  no_data g = false -> processed ((k, g) :: groups) = (k, g) :: processed groups.
Proof. unfold processed. cbn [filter snd]. now intros ->. Qed.

Lemma loop_event_cons (item : string * group) (groups : dict) (e : event) :
  loop_event groups e -> loop_event (item :: groups) e.
Proof.
  destruct item as [k g]. destruct e; cbn [loop_event]; trivial.
  destruct (no_data g) eqn:Hg.
  - now rewrite processed_skip.
  - rewrite processed_keep by assumption. now right.
Qed.

Lemma reported_length (items : dict) (w w' : world St) (reports : list string) :
  reported process_vision_info markdown model processor items w reports w' -> List.length reports = List.length items.
Proof. induction 1; cbn [List.length]; congruence. Qed.

(** The loop: what it adds to the trace whatever its outcome, and the
    sections it returns when no report raises. *)
Lemma loop_spec (groups : dict) (acc : list string) (w : world St) :
  exists new,
    trace (snd (for_eachM groups acc body w)) = (trace w ++ new)%list /\
    Forall (loop_event groups) new /\
    (forall sections, fst (for_eachM groups acc body w) = Ok sections ->
       exists reports,
         reported process_vision_info markdown model processor
                  (processed groups) w reports
                  (snd (for_eachM groups acc body w)) /\
         sections = (acc ++ sections_of markdown (processed groups) reports)%list /\
         new = report_events markdown (processed groups) reports).
Proof.
  revert acc w. induction groups as [|[k g] groups IH]; intros acc w.
  - exists []. cbn. rewrite app_nil_r. repeat split; auto.
    intros sections [= <-]. exists []. cbn. rewrite app_nil_r.
    repeat split. constructor.
  - cbn [for_eachM]. unfold bind.
    destruct (no_data g) eqn:Hg.
    + rewrite (process_group_skip k g acc w Hg).
      destruct (IH acc w) as (new & Htr & Hall & Hok).
      exists new. split; [assumption|]. split.
      * eapply Forall_impl; [apply loop_event_cons | exact Hall].
      * rewrite processed_skip by assumption. exact Hok.
    + rewrite (process_group_run k g acc w Hg).
      destruct (generate_blade_report_trace (rgb g) (thermal g) k w)
        as (new0 & Htr0 & Hnew0 & Hok0).
      assert (Hhead : loop_event ((k, g) :: groups)
                        (EvReport k (rgb g) (thermal g))).
      { cbn [loop_event]. rewrite processed_keep by assumption.
        left. now destruct g. }
      assert (Hgen : Forall (loop_event ((k, g) :: groups)) new0).
      { destruct Hnew0 as [->| ->]; repeat constructor. }
      destruct (report (rgb g) (thermal g) k w) as [[rep|e] w1] eqn:Hrep.
      * cbn [fst snd] in Htr0, Hok0. rewrite (Hok0 rep eq_refl) in *.
        set (sec := section_html_of k (markdown rep)).
        destruct (IH (acc ++ [sec])%list
                     (mkWorld (model_state w1) (trace w1 ++ [EvPrint sec])))
          as (new & Htr & Hall & Hok).
        exists ([EvReport k (rgb g) (thermal g); EvGenerate 1024; EvPrint sec]
                  ++ new)%list.
        split; [|split].
        -- rewrite Htr. cbn [trace]. rewrite Htr0.
           rewrite <- !app_assoc. reflexivity.
        -- apply Forall_app. split.
           ++ constructor; [exact Hhead|]. constructor; [reflexivity|].
              constructor; [exact I | constructor].
           ++ eapply Forall_impl; [apply loop_event_cons | exact Hall].
        -- intros sections Hs.
           destruct (Hok sections Hs) as (reports & Hrun & -> & ->).
           exists (rep :: reports). rewrite processed_keep by assumption.
           split; [now apply reported_cons with (w1 := w1)|].
           unfold sections_of, report_events. cbn [combine map flat_map fst snd].
           fold sec. rewrite <- app_assoc. split; reflexivity.
      * cbn [fst snd] in *. exists (EvReport k (rgb g) (thermal g) :: new0).
        split; [assumption|]. split; [now constructor | discriminate].
Qed.

(** The loop followed by the write. *)
Lemma render_groups_spec (groups : dict) (output_file : string) (w : world St) :
  let run := render_groups process_vision_info markdown groups output_file
                           model processor w in
  exists new,
    trace (snd run) = (trace w ++ new)%list /\
    (forall k r t, In (EvReport k r t) new -> In (k, mkGroup r t) (processed groups)) /\
    (forall path doc, In (EvWrite path doc) new ->
       path = output_file /\
       exists reports,
         List.length reports = List.length (processed groups) /\
         doc = html_document (sections_of markdown (processed groups) reports)) /\
    (fst run = Ok tt ->
     exists reports w1,
       reported process_vision_info markdown model processor
                (processed groups) w reports w1 /\
       snd run =
         mkWorld (model_state w1)
                 (trace w1 ++
                  [EvWrite output_file
                     (html_document
                        (sections_of markdown (processed groups) reports))]) /\
       new = (report_events markdown (processed groups) reports ++
              [EvWrite output_file
                 (html_document
                    (sections_of markdown (processed groups) reports))])%list).
Proof.
  cbv zeta. unfold render_groups, bind. fold body.
  destruct (loop_spec groups [] w) as (new & Htr & Hall & Hok).
  rewrite Forall_forall in Hall.
  destruct (for_eachM groups [] body w) as [[sections|e] w1].
  - cbn [fst snd] in *.
    destruct (Hok sections eq_refl) as (reports & Hrun & -> & ->).
    cbn [app]. unfold emit. cbn [fst snd trace model_state].
    set (doc := html_document (sections_of markdown (processed groups) reports)).
    exists (report_events markdown (processed groups) reports
              ++ [EvWrite output_file doc])%list.
    split; [now rewrite Htr, app_assoc|]. split; [|split].
    + intros k r t Hin. apply in_app_iff in Hin as [Hin|[Hin|[]]]; [|discriminate].
      apply (Hall _ Hin).
    + intros path d Hin. apply in_app_iff in Hin as [Hin|[Hin|[]]].
      * destruct (Hall _ Hin).
      * injection Hin as <- <-. split; [reflexivity|].
        exists reports. split; [|reflexivity].
        eapply reported_length; eassumption.
    + intros _. exists reports, w1. repeat split; trivial.
  - cbn [fst snd] in *. exists new. split; [assumption|]. split; [|split].
    + intros k r t Hin. apply (Hall _ Hin).
    + intros path d Hin. destruct (Hall _ Hin).
    + discriminate.
Qed.

(** The whole run: the grouper cannot raise, so the run is the loop and
    the write over the mapping of the grouper. *)
Lemma process_turbine_data_to_html_eq (fs : filesystem)
    (rgb_dir thermal_dir output_file : string) (w : world St) :
  process_turbine_data_to_html process_vision_info markdown fs rgb_dir
    thermal_dir output_file model processor w =
  render_groups process_vision_info markdown (grouped fs rgb_dir thermal_dir)
    output_file model processor w.
Proof.
  unfold process_turbine_data_to_html, bind, lift.
  now rewrite group_files_eq.
Qed.

End RunFacts.

(** ** Tags in identifiers and sections *)

Lemma forallb_impl (f g : ascii -> bool) (s : string) :
  (forall c, f c = true -> g c = true) ->
  Str.forallb f s = true -> Str.forallb g s = true.
Proof.
  intros Hfg. induction s as [|c s IH]; cbn [Str.forallb]; [reflexivity|].
  rewrite !andb_true_iff. intros [Hc Hs]. auto.
Qed.

Lemma digit_not_lt (c : ascii) :
  Str.is_digit c = true -> negb (Ascii.eqb c "<") = true.
Proof.
  intros H. destruct (Ascii.eqb_spec c "<") as [->|]; [discriminate | reflexivity].
Qed.

Lemma upper_not_lt (c : ascii) :
  Str.is_upper c = true -> negb (Ascii.eqb c "<") = true.
Proof.
  intros H. destruct (Ascii.eqb_spec c "<") as [->|]; [discriminate | reflexivity].
Qed.

(** An identifier holds no tag. *)
Lemma identifier_no_h2 (fname k : string) : kept fname = Some k -> count_h2 k = 0.
Proof.
  intros H. apply kept_iff in H as [_ [H _]].
  apply regex_shape in H as (ds & c & -> & _ & Hds & Hc).
  apply count_h2_no_lt.
  rewrite !StrFacts.forallb_append. cbn [Str.forallb].
  rewrite (forallb_impl _ _ ds digit_not_lt Hds), (upper_not_lt c Hc).
  reflexivity.
Qed.

Lemma length_sections_of (markdown : string -> string) (items : dict)
    (reports : list string) :
  List.length reports = List.length items ->
  List.length (sections_of markdown items reports) = List.length items.
Proof.
  intros H. unfold sections_of. rewrite length_map, length_combine. lia.
Qed.

Lemma count_h2_sections_of (markdown : string -> string) (items : dict)
    (reports : list string) :
  List.length reports = List.length items ->
  Forall (fun item => count_h2 (fst item) = 0) items ->
  list_sum (map count_h2 (sections_of markdown items reports)) =
  List.length items + list_sum (map (fun rep => count_h2 (markdown rep)) reports).
Proof.
  intros Hlen Hall. revert reports Hlen.
  induction Hall as [|[k g] items Hk _ IH]; intros [|rep reports] Hlen;
    try discriminate; [reflexivity|].
  injection Hlen as Hlen. unfold sections_of in *.
  cbn [combine map list_sum fold_right fst snd List.length].
  change (fold_right Nat.add 0) with list_sum.
  rewrite (IH _ Hlen), count_h2_section. cbn [fst] in Hk. lia.
Qed.

Lemma grouped_keys_no_h2 (fs : filesystem) (rgb_dir thermal_dir : string) :
  Forall (fun item => count_h2 (fst item) = 0)
         (processed (grouped fs rgb_dir thermal_dir)).
Proof.
  apply Forall_forall. intros [k g] Hin. cbn [fst].
  apply filter_In in Hin as [Hin _].
  assert (Hk : In k (dict_keys (grouped fs rgb_dir thermal_dir))).
  { change k with (fst (k, g)). now apply in_map. }
  apply grouped_key_seen in Hk as (m & f & _ & Hk).
  eapply identifier_no_h2; eassumption.
Qed.

(** * The batch loop *)

(** C6. For a group of the mapping whose RGB and thermal lists are both
    empty, the loop never calls the report generator, and the written
    document has no section for it: its sections stand, one for one and in
    order, for the groups that are not skipped, and the identifier of the
    empty group is not among them.  The mapping is any dictionary (its
    keys are pairwise distinct) and the run may end in an exception: the
    grouper itself returns no such group. *)
Theorem empty_group_is_skipped
    (St vision : Type) (process_vision_info : list message -> result vision)
    (markdown : string -> string)
    (model : Model St vision) (processor : Processor vision)
    (groups : dict) (output_file : string) (w : world St)
    (k : string) (g : group) :
  NoDup (dict_keys groups) ->
  In (k, g) groups ->
  rgb g = [] ->
  thermal g = [] ->
  exists new,
    trace (snd (render_groups process_vision_info markdown groups output_file
                              model processor w)) = (trace w ++ new)%list /\
    (forall r t, ~ In (EvReport k r t) new) /\
    ~ In k (dict_keys (processed groups)) /\
    (forall path doc, In (EvWrite path doc) new ->
       exists reports,
         List.length reports = List.length (processed groups) /\
         doc = html_document (sections_of markdown (processed groups) reports)).
Proof.
  intros Hnd Hin Hr Ht.
  assert (Hempty : no_data g = true) by (unfold no_data; now rewrite Hr, Ht).
  assert (Hnot : forall g', ~ In (k, g') (processed groups)).
  { intros g' Hp. apply filter_In in Hp as [Hp Hd]. cbn [snd] in Hd.
    apply In_dict_get in Hp, Hin; trivial.
    assert (g' = g) as -> by congruence. now rewrite Hempty in Hd. }
  destruct (render_groups_spec process_vision_info markdown model processor
              groups output_file w) as (new & Htr & Hrep & Hwr & _).
  exists new. split; [exact Htr|]. split; [|split].
  - intros r t Hev. exact (Hnot _ (Hrep _ _ _ Hev)).
  - intros Hk. apply in_map_iff in Hk as ([k' g'] & E & Hp).
    cbn [fst] in E. subst k'. exact (Hnot _ Hp).
  - intros path doc Hev. exact (proj2 (Hwr _ _ Hev)).
Qed.

Lemma empty_group_is_skipped_witness :
  exists new,
    trace (snd (render_groups example_vision_info example_markdown example_groups
                              "out.html" example_model example_processor
                              example_world)) = (trace example_world ++ new)%list /\
    (forall r t, ~ In (EvReport "Turbine-1_A" r t) new) /\
    ~ In "Turbine-1_A" (dict_keys (processed example_groups)) /\
    (forall path doc, In (EvWrite path doc) new ->
       exists reports,
         List.length reports = List.length (processed example_groups) /\
         doc = html_document
                 (sections_of example_markdown (processed example_groups) reports)).
Proof.
  apply (@empty_group_is_skipped unit unit example_vision_info example_markdown
           example_model example_processor example_groups "out.html"
           example_world "Turbine-1_A" (mkGroup [] [])).
  - repeat constructor; simpl; intuition discriminate.
  - simpl. auto.
  - reflexivity.
  - reflexivity.
Defined.

(** C4, as stated, fails: a run over the documented directories processes
    one group, and the written document holds two [<h2>] tags, the second
    one from the rendering of the report text, under a heading that reads
    [Report for Turbine-2_A] rather than the identifier alone. *)
Lemma h2_count_exceeds_group_count :
  let run :=
    process_turbine_data_to_html example_vision_info example_markdown
      example_fs "A" "B" "out.html" example_model example_processor
      example_world in
  exists groups doc,
    group_files_by_turbine_blade example_fs "A" "B" = Ok groups /\
    fst run = Ok tt /\
    last (trace (snd run)) (EvPrint "") = EvWrite "out.html" doc /\
    doc = html_document
            ["<h2>Report for Turbine-2_A</h2>" ++ nl ++
             "<div><h2>Findings</h2></div>"] /\
    List.length (processed groups) = 1 /\
    count_h2 doc = 2 /\
    count_h2 doc <> List.length (processed groups).
Proof.
  cbv zeta.
  exists [("Turbine-2_A",
           mkGroup ["A/Turbine-2_A_PS_sequence_13.jpg";
                    "A/Turbine-2_A_PS_sequence_14.png"]
                   ["B/Turbine-2_A_thermal_01.jpg"])].
  exists (html_document
            ["<h2>Report for Turbine-2_A</h2>" ++ nl ++
             "<div><h2>Findings</h2></div>"]).
  repeat split; try (vm_compute; reflexivity).
  vm_compute. discriminate.
Qed.

(** C4, amended.  When the run succeeds, the written document is the fixed
    skeleton around one section per processed group, in iteration order,
    joined by line feeds; the section of a group is
    [<h2>Report for <identifier></h2>], a line feed, and a [<div>] holding
    the rendering of the report text returned for that group.  With [N]
    processed groups the document holds [N] tags [<h2>] plus those of the
    rendered reports, hence exactly [N] when no rendering has one. *)
Theorem written_document_sections
    (St vision : Type) (process_vision_info : list message -> result vision)
    (markdown : string -> string) (fs : filesystem)
    (rgb_dir thermal_dir output_file : string)
    (model : Model St vision) (processor : Processor vision) (w : world St) :
  fst (process_turbine_data_to_html process_vision_info markdown fs rgb_dir
         thermal_dir output_file model processor w) = Ok tt ->
  exists groups reports w1,
    group_files_by_turbine_blade fs rgb_dir thermal_dir = Ok groups /\
    reported process_vision_info markdown model processor
             (processed groups) w reports w1 /\
    snd (process_turbine_data_to_html process_vision_info markdown fs rgb_dir
           thermal_dir output_file model processor w) =
      mkWorld (model_state w1)
        (trace w1 ++
         [EvWrite output_file
            (html_document (sections_of markdown (processed groups) reports))]) /\
    sections_of markdown (processed groups) reports =
      map (fun ir => "<h2>Report for " ++ fst (fst ir) ++ "</h2>" ++ nl ++
                     "<div>" ++ markdown (snd ir) ++ "</div>")
          (combine (processed groups) reports) /\
    List.length (sections_of markdown (processed groups) reports) =
      List.length (processed groups) /\
    count_h2 (html_document (sections_of markdown (processed groups) reports)) =
      List.length (processed groups) +
      list_sum (map (fun rep => count_h2 (markdown rep)) reports) /\
    (Forall (fun rep => count_h2 (markdown rep) = 0) reports ->
     count_h2 (html_document (sections_of markdown (processed groups) reports)) =
       List.length (processed groups)).
Proof.
  rewrite process_turbine_data_to_html_eq. intros Hok.
  destruct (render_groups_spec process_vision_info markdown model processor
              (grouped fs rgb_dir thermal_dir) output_file w)
    as (new & _ & _ & _ & Hrun).
  destruct (Hrun Hok) as (reports & w1 & Hrep & Hsnd & _).
  pose proof (reported_length Hrep) as Hlen.
  assert (Hcount :
    count_h2 (html_document
                (sections_of markdown (processed (grouped fs rgb_dir thermal_dir))
                             reports)) =
    List.length (processed (grouped fs rgb_dir thermal_dir)) +
    list_sum (map (fun rep => count_h2 (markdown rep)) reports)).
  { rewrite count_h2_document.
    apply count_h2_sections_of; [exact Hlen | apply grouped_keys_no_h2]. }
  exists (grouped fs rgb_dir thermal_dir), reports, w1.
  split; [apply group_files_eq|]. split; [exact Hrep|]. split; [exact Hsnd|].
  split; [reflexivity|].
  split; [now apply length_sections_of|]. split; [exact Hcount|].
  intros Hnone. rewrite Hcount.
  assert (Hzero : list_sum (map (fun rep => count_h2 (markdown rep)) reports) = 0).
  { clear - Hnone. induction Hnone as [|rep reports Hrep _ IH]; [reflexivity|].
    cbn [map list_sum fold_right]. change (fold_right Nat.add 0) with list_sum.
    rewrite Hrep, IH. reflexivity. }
  lia.
Qed.

Lemma written_document_sections_witness :
  exists groups reports w1,
    group_files_by_turbine_blade example_fs "A" "B" = Ok groups /\
    reported example_vision_info example_markdown example_model example_processor
             (processed groups) example_world reports w1 /\
    snd (process_turbine_data_to_html example_vision_info example_markdown
           example_fs "A" "B" "out.html" example_model example_processor
           example_world) =
      mkWorld (model_state w1)
        (trace w1 ++
         [EvWrite "out.html"
            (html_document
               (sections_of example_markdown (processed groups) reports))]) /\
    sections_of example_markdown (processed groups) reports =
      map (fun ir => "<h2>Report for " ++ fst (fst ir) ++ "</h2>" ++ nl ++
                     "<div>" ++ example_markdown (snd ir) ++ "</div>")
          (combine (processed groups) reports) /\
    List.length (sections_of example_markdown (processed groups) reports) =
      List.length (processed groups) /\
    count_h2 (html_document
                (sections_of example_markdown (processed groups) reports)) =
      List.length (processed groups) +
      list_sum (map (fun rep => count_h2 (example_markdown rep)) reports) /\
    (Forall (fun rep => count_h2 (example_markdown rep) = 0) reports ->
     count_h2 (html_document
                 (sections_of example_markdown (processed groups) reports)) =
       List.length (processed groups)).
Proof.
  apply (@written_document_sections unit unit example_vision_info
           example_markdown example_fs "A" "B" "out.html" example_model
           example_processor example_world).
  reflexivity.
Defined.

(** C10. Every group of the returned mapping has a file in its RGB list or
    in its thermal list, so the skip condition of the batch loop is false
    for each of them: on every group the loop body takes the branch that
    asks for the report, and the loop skips none. *)
Theorem group_files_no_empty_group
    (fs : filesystem) (rgb_dir thermal_dir : string) :
  exists groups,
    group_files_by_turbine_blade fs rgb_dir thermal_dir = Ok groups /\
    (forall k g, In (k, g) groups ->
       (rgb g <> [] \/ thermal g <> []) /\
       no_data g = false /\
       forall (St vision : Type)
              (process_vision_info : list message -> result vision)
              (markdown : string -> string)
              (model : Model St vision) (processor : Processor vision)
              (html_sections : list string) (w : world St),
         process_group process_vision_info markdown model processor
                       (k, g) html_sections w =
         match generate_blade_report process_vision_info (rgb g) (thermal g)
                                     model processor k w with
         | (Ok report, w1) =>
             (Ok (html_sections ++ [section_html_of k (markdown report)])%list,
              mkWorld (model_state w1)
                      (trace w1 ++ [EvPrint (section_html_of k (markdown report))]))
         | (Raise e, w1) => (Raise e, w1)
         end) /\
    processed groups = groups.
Proof.
  exists (grouped fs rgb_dir thermal_dir).
  split; [apply group_files_eq|].
  assert (H : forall k g, In (k, g) (grouped fs rgb_dir thermal_dir) ->
                          no_data g = false)
    by apply grouped_not_empty.
  split.
  - intros k g Hg. specialize (H k g Hg). split; [|split; [exact H|]].
    + unfold no_data in H.
      destruct (rgb g); [|left; discriminate].
      destruct (thermal g); [discriminate | right; discriminate].
    + intros. now apply process_group_run.
  - unfold processed.
    induction (grouped fs rgb_dir thermal_dir) as [|[k g] d IH]; simpl; [reflexivity|].
    rewrite (H k g) by now left. simpl. f_equal. apply IH.
    intros k' g' Hg'. apply (H k' g'). now right.
Qed.

(** * Further properties of the file grouper *)

(** X1. A name has the identifier [p] exactly when it starts with a word
    [p] of the regular expression [Turbine-\d+_[A-Z]], and has none
    exactly when it starts with no such word: the one-pass matcher and the
    backtracking reading of the pattern agree. *)
Theorem pattern_match_agrees_with_regex (fname : string) :
  (forall p, pattern_match fname = Some p <-> starts_with_match fname p) /\
  (pattern_match fname = None <-> forall p, ~ starts_with_match fname p).
Proof.
  split; [intros p; apply pattern_match_iff | apply pattern_match_none].
Qed.

(** X2. An identifier is [Turbine-], a non-empty run of digits, [_] and
    one upper-case letter; it is a prefix of the name it was read from,
    it is its own identifier, and what follows it in a name never changes
    it. *)
Theorem identifier_is_stable (fname p : string) :
  pattern_match fname = Some p ->
  (exists ds c,
     p = "Turbine-" ++ ds ++ "_" ++ String c "" /\
     ds <> "" /\ Str.forallb Str.is_digit ds = true /\ Str.is_upper c = true) /\
  (exists rest, fname = p ++ rest) /\
  pattern_match p = Some p /\
  (forall rest, pattern_match (p ++ rest) = Some p).
Proof.
  intros H. apply pattern_match_iff in H as [Hlang Hrest].
  assert (Hany : forall rest, pattern_match (p ++ rest) = Some p).
  { intros rest. apply pattern_match_iff. split; [assumption | eauto]. }
  split; [now apply regex_shape|]. split; [assumption|]. split; [|assumption].
  specialize (Hany ""). now rewrite StrFacts.append_nil_r in Hany.
Qed.

Lemma identifier_is_stable_witness :
  (exists ds c,
     "Turbine-12_A" = "Turbine-" ++ ds ++ "_" ++ String c "" /\
     ds <> "" /\ Str.forallb Str.is_digit ds = true /\ Str.is_upper c = true) /\
  (exists rest, "Turbine-12_AB.jpg" = "Turbine-12_A" ++ rest) /\
  pattern_match "Turbine-12_A" = Some "Turbine-12_A" /\
  (forall rest, pattern_match ("Turbine-12_A" ++ rest) = Some "Turbine-12_A").
Proof.
  apply (@identifier_is_stable "Turbine-12_AB.jpg" "Turbine-12_A").
  reflexivity.
Defined.


(** X4. One turn of a scanning loop.  For a kept file with identifier [k]
    the turn returns normally; the joined path is appended to the list of
    the scanned modality under [k]; every other list of the mapping is
    unchanged; and [k] is added as the last key when it was missing, the
    keys being otherwise untouched.  For any other file the mapping is
    returned as it was. *)
Theorem scan_step_effect
    (m : modality) (dir fname : string) (file_groups : dict) :
  (forall k, starts_with_match fname k -> has_image_extension fname ->
     exists file_groups',
       scan_step m dir fname file_groups = Ok file_groups' /\
       files m k file_groups' =
         (files m k file_groups ++ [path_join dir fname])%list /\
       (forall m' k', m' <> m \/ k' <> k ->
          files m' k' file_groups' = files m' k' file_groups) /\
       dict_keys file_groups' =
         if mem k (dict_keys file_groups) then dict_keys file_groups
         else (dict_keys file_groups ++ [k])%list) /\
  ((forall k, ~ starts_with_match fname k) \/ ~ has_image_extension fname ->
   scan_step m dir fname file_groups = Ok file_groups).
Proof.
  split.
  - intros k Hm He.
    assert (Hk : kept fname = Some k) by (apply kept_iff; auto).
    exists (dict_add m k (path_join dir fname) file_groups).
    split; [now rewrite scan_step_eq, Hk|]. split; [|split].
    + rewrite files_add. now rewrite String.eqb_refl; destruct m.
    + intros m' k' Hne. rewrite files_add.
      destruct (String.eqb_spec k' k) as [->|];
        [|now rewrite andb_false_r, app_nil_r].
      destruct m, m'; cbn; rewrite ?app_nil_r; trivial;
        destruct Hne as [Hne|Hne]; now elim Hne.
    + apply dict_keys_add.
  - intros Hno.
    assert (Hk : kept fname = None) by (apply kept_none_iff; tauto).
    now rewrite scan_step_eq, Hk.
Qed.

(** X5. Nothing is in a group that was not found: a path in the list of a
    modality under [k] is the joined path of an entry of the directory of
    that modality, and this entry starts with a match [k] of the pattern
    and has an image extension. *)
Theorem group_paths_come_from_kept_files
    (fs : filesystem) (rgb_dir thermal_dir : string) (groups : dict)
    (k : string) (g : group) (m : modality) (p : string) :
  group_files_by_turbine_blade fs rgb_dir thermal_dir = Ok groups ->
  In (k, g) groups ->
  In p (files_of m g) ->
  exists names f,
    fs (dir_of m rgb_dir thermal_dir) = Some names /\ In f names /\
    p = path_join (dir_of m rgb_dir thermal_dir) f /\
    starts_with_match f k /\ has_image_extension f.
Proof.
  rewrite group_files_eq. intros [= <-] Hg Hp.
  destruct (grouped_path_origin _ _ _ _ _ _ _ Hg Hp)
    as (names & f & Hfs & Hf & Hk & ->).
  apply kept_iff in Hk as [He Hm]. exists names, f. auto.
Qed.

Lemma group_paths_come_from_kept_files_witness :
  exists names f,
    example_fs "B" = Some names /\ In f names /\
    "B/Turbine-2_A_thermal_01.jpg" = path_join "B" f /\
    starts_with_match f "Turbine-2_A" /\ has_image_extension f.
Proof.
  apply (@group_paths_come_from_kept_files example_fs "A" "B"
           [("Turbine-2_A",
             mkGroup ["A/Turbine-2_A_PS_sequence_13.jpg";
                      "A/Turbine-2_A_PS_sequence_14.png"]
                     ["B/Turbine-2_A_thermal_01.jpg"])]
           "Turbine-2_A"
           (mkGroup ["A/Turbine-2_A_PS_sequence_13.jpg";
                     "A/Turbine-2_A_PS_sequence_14.png"]
                    ["B/Turbine-2_A_thermal_01.jpg"])
           Thermal "B/Turbine-2_A_thermal_01.jpg").
  - reflexivity.
  - simpl. auto.
  - simpl. auto.
Defined.

Lemma total_files_app (m : modality) (a b : dict) :
  total_files m (a ++ b)%list = total_files m a + total_files m b.
Proof.
  unfold total_files. rewrite map_app, list_sum_app. reflexivity.
Qed.

Lemma total_files_update (m m' : modality) (k p : string) (d : dict) (g : group) :
  dict_get k d = Some g ->
  total_files m (dict_update k (group_append m' p) d) =
  total_files m d + (if modality_eqb m' m then 1 else 0).
Proof.
  induction d as [|[k0 g0] d IH]; cbn [dict_get dict_update]; [discriminate|].
  destruct (String.eqb k k0).
  - intros _. unfold total_files. cbn [map list_sum fold_right snd].
    destruct m, m'; cbn [files_of group_append rgb thermal modality_eqb];
      rewrite ?length_app; cbn [List.length]; lia.
  - intros H. specialize (IH H). unfold total_files in *.
    cbn [map list_sum fold_right snd]. change (fold_right Nat.add 0) with list_sum.
    rewrite IH. lia.
Qed.

Lemma total_files_add (m m' : modality) (k p : string) (d : dict) :
  total_files m (dict_add m' k p d) =
  total_files m d + (if modality_eqb m' m then 1 else 0).
Proof.
  unfold dict_add.
  assert (Hget : exists g, dict_get k (setdefault k empty_group d) = Some g).
  { rewrite dict_get_setdefault, String.eqb_refl.
    destruct (dict_get k d); eauto. }
  destruct Hget as [g Hg]. rewrite (total_files_update m m' k p _ Hg).
  f_equal. unfold setdefault. destruct (dict_get k d); [reflexivity|].
  rewrite total_files_app. unfold total_files at 2. destruct m; cbn; lia.
Qed.

Lemma total_files_add_entries (m m' : modality) (es : list (string * string))
    (d : dict) :
  total_files m (add_entries m' es d) =
  total_files m d + (if modality_eqb m' m then List.length es else 0).
Proof.
  revert d. unfold add_entries.
  induction es as [|[k p] es IH]; intros d; cbn [fold_left List.length fst snd].
  - destruct (modality_eqb m' m); lia.
  - rewrite IH, total_files_add. destruct (modality_eqb m' m); lia.
Qed.

Lemma length_entries (dir : string) (names : list string) :
  List.length (entries dir names) = List.length (filter is_kept names).
Proof.
  unfold entries, is_kept. induction names as [|f names IH]; [reflexivity|].
  cbn [flat_map filter]. rewrite length_app, IH.
  destruct (kept f); reflexivity.
Qed.

Lemma filter_Permutation {A} (f : A -> bool) (l l' : list A) :
  Permutation l l' -> Permutation (filter f l) (filter f l').
Proof.
  induction 1 as [|x l l' _ IH|x y l|l l' l'' _ IH1 _ IH2]; cbn [filter].
  - constructor.
  - destruct (f x); [now constructor | assumption].
  - destruct (f x), (f y); try apply Permutation_refl. apply perm_swap.
  - eapply Permutation_trans; eassumption.
Qed.

(** X6. The groups share out the kept files, none lost and none twice:
    for each modality, the lists of all the groups together hold as many
    paths as the directory has kept entries, and none when the directory
    is missing. *)
Theorem group_sizes_add_up
    (fs : filesystem) (rgb_dir thermal_dir : string) (m : modality) :
  exists groups,
    group_files_by_turbine_blade fs rgb_dir thermal_dir = Ok groups /\
    (forall names, fs (dir_of m rgb_dir thermal_dir) = Some names ->
       total_files m groups = List.length (filter is_kept names)) /\
    (fs (dir_of m rgb_dir thermal_dir) = None -> total_files m groups = 0).
Proof.
  exists (grouped fs rgb_dir thermal_dir). split; [apply group_files_eq|].
  assert (H : total_files m (grouped fs rgb_dir thermal_dir) =
              List.length (filter is_kept (listing fs (dir_of m rgb_dir thermal_dir)))).
  { unfold grouped. rewrite !total_files_add_entries, !length_entries.
    unfold total_files at 1. destruct m; cbn; lia. }
  split.
  - intros names Hfs. rewrite H. unfold listing. rewrite Hfs.
    apply Permutation_length, filter_Permutation, Permutation_sym,
      sorted_Permutation.
  - intros Hfs. rewrite H. unfold listing. now rewrite Hfs.
Qed.

Lemma NoDup_map_on {A B} (f : A -> B) (l : list A) :
  (forall x y, In x l -> In y l -> f x = f y -> x = y) ->
  NoDup l -> NoDup (map f l).
Proof.
  intros Hinj Hnd. induction Hnd as [|x l Hx Hnd IH]; cbn [map]; constructor.
  - intros Hin. apply in_map_iff in Hin as (y & E & Hy).
    assert (y = x) as -> by (apply Hinj; cbn; auto). contradiction.
  - apply IH. intros a b Ha Hb. apply Hinj; cbn; auto.
Qed.

Lemma distinct_names_example_fs : distinct_names example_fs.
Proof.
  intros d names. unfold example_fs.
  destruct (String.eqb d "A");
    [intros [= <-]; repeat constructor; cbn; intuition discriminate|].
  destruct (String.eqb d "B");
    [intros [= <-]; repeat constructor; cbn; intuition discriminate|].
  discriminate.
Qed.

(** X7. When the entries of each directory are distinct base names, as
    [os.listdir] returns them, no list of any group holds a path twice. *)
Theorem group_lists_have_no_duplicates
    (fs : filesystem) (rgb_dir thermal_dir : string) :
  base_names fs ->
  distinct_names fs ->
  exists groups,
    group_files_by_turbine_blade fs rgb_dir thermal_dir = Ok groups /\
    forall k g, In (k, g) groups -> NoDup (rgb g) /\ NoDup (thermal g).
Proof.
  intros Hbase Hdist. exists (grouped fs rgb_dir thermal_dir).
  split; [apply group_files_eq|].
  assert (H : forall k g m, In (k, g) (grouped fs rgb_dir thermal_dir) ->
                            NoDup (files_of m g)).
  { intros k g m Hg. rewrite (grouped_In _ _ _ _ _ Hg m).
    set (dir := dir_of m rgb_dir thermal_dir).
    unfold listing. destruct (fs dir) as [names|] eqn:Hfs; [|constructor].
    apply NoDup_map_on.
    - intros x y Hx Hy. apply filter_In in Hx as [Hx _], Hy as [Hy _].
      apply (proj1 (sorted_In _ _)) in Hx. apply (proj1 (sorted_In _ _)) in Hy.
      pose proof (Hbase _ _ Hfs) as HF. rewrite Forall_forall in HF.
      apply path_join_inj; auto.
    - apply NoDup_filter.
      apply (Permutation_NoDup (sorted_Permutation names)), (Hdist _ _ Hfs). }
  intros k g Hg. split; [apply (H k g RGB Hg) | apply (H k g Thermal Hg)].
Qed.

Lemma group_lists_have_no_duplicates_witness :
  exists groups,
    group_files_by_turbine_blade example_fs "A" "B" = Ok groups /\
    forall k g, In (k, g) groups -> NoDup (rgb g) /\ NoDup (thermal g).
Proof.
  apply (@group_lists_have_no_duplicates example_fs "A" "B").
  - exact base_names_example_fs.
  - exact distinct_names_example_fs.
Defined.

(** X8. The list of a modality under a key depends on the directory of
    that modality alone: two runs given the same directory for it return
    the same list under every key, whatever the other directory is. *)
Theorem group_list_depends_on_its_directory
    (fs : filesystem) (rgb_dir thermal_dir rgb_dir' thermal_dir' : string)
    (m : modality) :
  dir_of m rgb_dir thermal_dir = dir_of m rgb_dir' thermal_dir' ->
  exists groups groups',
    group_files_by_turbine_blade fs rgb_dir thermal_dir = Ok groups /\
    group_files_by_turbine_blade fs rgb_dir' thermal_dir' = Ok groups' /\
    forall k, files m k groups = files m k groups'.
Proof.
  intros Hdir.
  exists (grouped fs rgb_dir thermal_dir), (grouped fs rgb_dir' thermal_dir').
  split; [apply group_files_eq|]. split; [apply group_files_eq|].
  intros k. rewrite !grouped_files. now rewrite Hdir.
Qed.

Lemma group_list_depends_on_its_directory_witness :
  exists groups groups',
    group_files_by_turbine_blade example_fs "A" "B" = Ok groups /\
    group_files_by_turbine_blade example_fs "A" "missing" = Ok groups' /\
    forall k, files RGB k groups = files RGB k groups'.
Proof.
  apply (@group_list_depends_on_its_directory example_fs "A" "B" "A" "missing" RGB).
  reflexivity.
Defined.

(** X9. Exchanging the two directories exchanges the two lists of every
    group and leaves the set of keys as it was. *)
Theorem group_files_swap (fs : filesystem) (rgb_dir thermal_dir : string) :
  exists groups swapped,
    group_files_by_turbine_blade fs rgb_dir thermal_dir = Ok groups /\
    group_files_by_turbine_blade fs thermal_dir rgb_dir = Ok swapped /\
    (forall k, files RGB k groups = files Thermal k swapped /\
               files Thermal k groups = files RGB k swapped) /\
    (forall k, In k (dict_keys groups) <-> In k (dict_keys swapped)).
Proof.
  exists (grouped fs rgb_dir thermal_dir), (grouped fs thermal_dir rgb_dir).
  split; [apply group_files_eq|]. split; [apply group_files_eq|]. split.
  - intros k. rewrite !grouped_files. split; reflexivity.
  - intros k. rewrite !grouped_key_seen.
    split; intros (m & f & Hf & Hk);
      (exists (match m with RGB => Thermal | Thermal => RGB end), f);
      destruct m; auto.
Qed.

(** X10. The mapping is empty exactly when neither directory has a kept
    entry; in particular when both are missing. *)
Theorem group_files_empty_iff (fs : filesystem) (rgb_dir thermal_dir : string) :
  group_files_by_turbine_blade fs rgb_dir thermal_dir = Ok [] <->
  (forall m names f,
     fs (dir_of m rgb_dir thermal_dir) = Some names -> In f names ->
     is_kept f = false).
Proof.
  rewrite group_files_eq. split.
  - intros [= H] m names f Hfs Hf. unfold is_kept.
    destruct (kept f) as [k|] eqn:Hk; [|reflexivity].
    assert (Hin : In k (dict_keys (grouped fs rgb_dir thermal_dir))).
    { apply grouped_key_seen. exists m, f. split; [|assumption].
      apply listing_In. eauto. }
    rewrite H in Hin. destruct Hin.
  - intros H. f_equal.
    destruct (grouped fs rgb_dir thermal_dir) as [|[k g] d] eqn:E; [reflexivity|].
    assert (Hin : In k (dict_keys (grouped fs rgb_dir thermal_dir)))
      by (rewrite E; now left).
    apply grouped_key_seen in Hin as (m & f & Hf & Hk).
    apply listing_In in Hf as (names & Hfs & Hf).
    specialize (H m names f Hfs Hf). unfold is_kept in H.
    rewrite Hk in H. discriminate.
Qed.

(** X11. Every key of the mapping is a word of the pattern, is its own
    identifier, and is the identifier of an entry of one of the two
    directories. *)
Theorem group_keys_are_identifiers
    (fs : filesystem) (rgb_dir thermal_dir : string) :
  exists groups,
    group_files_by_turbine_blade fs rgb_dir thermal_dir = Ok groups /\
    forall k, In k (dict_keys groups) ->
      in_lang turbine_blade_regex k /\
      pattern_match k = Some k /\
      exists m names f,
        fs (dir_of m rgb_dir thermal_dir) = Some names /\ In f names /\
        pattern_match f = Some k.
Proof.
  exists (grouped fs rgb_dir thermal_dir). split; [apply group_files_eq|].
  intros k Hk. apply grouped_key_seen in Hk as (m & f & Hf & Hk).
  apply listing_In in Hf as (names & Hfs & Hf).
  apply kept_iff in Hk as [_ Hm].
  pose proof Hm as [Hlang _]. split; [assumption|]. split.
  - apply pattern_match_iff. split; [assumption|]. exists "".
    now rewrite StrFacts.append_nil_r.
  - exists m, names, f. repeat split; trivial. now apply pattern_match_iff.
Qed.

(** * Further properties of the report generator *)

Lemma user_content_as_blocks (rgb_paths thermal_paths : list string) (k : string) :
  build_user_content rgb_paths thermal_paths k =
  (spec_block RGB rgb_paths k ++ spec_block Thermal thermal_paths k)%list.
Proof.
  unfold build_user_content.
  destruct rgb_paths as [|r rs], thermal_paths as [|t ts];
    cbn [truthy spec_block modality_label]; unfold append;
    rewrite ?fold_append_images; cbn [app]; rewrite ?app_nil_r;
    try reflexivity.
  rewrite <- app_assoc. reflexivity.
Qed.

Lemma images_of_block (m : modality) (paths : list string) (k : string) :
  images_of (spec_block m paths k) = paths.
Proof.
  assert (H : forall l, images_of (map ImageItem l) = l).
  { unfold images_of. induction l as [|x l IH]; cbn; congruence. }
  destruct paths as [|p paths]; [reflexivity|].
  cbn [spec_block]. unfold images_of. cbn [flat_map app].
  apply (H (p :: paths)).
Qed.

Lemma texts_of_block (m : modality) (paths : list string) (k : string) :
  List.length (texts_of (spec_block m paths k)) = if truthy paths then 1 else 0.
Proof.
  assert (H : forall l, texts_of (map ImageItem l) = []).
  { unfold texts_of. induction l as [|x l IH]; cbn; congruence. }
  destruct paths as [|p paths]; [reflexivity|].
  cbn [spec_block truthy]. unfold texts_of. cbn [flat_map].
  fold (texts_of (map ImageItem (p :: paths))). now rewrite H.
Qed.

Lemma length_block (m : modality) (paths : list string) (k : string) :
  List.length (spec_block m paths k) =
  List.length paths + if truthy paths then 1 else 0.
Proof.
  destruct paths as [|p paths]; [reflexivity|].
  cbn [spec_block truthy List.length]. rewrite length_map. cbn. lia.
Qed.

(** X12. The user content attaches every image once, the RGB paths first
    and the thermal paths after them, each list in its order; it has one
    descriptive text for each non-empty list and nothing else; and it is
    empty exactly when both lists are empty. *)
Theorem user_content_images
    (rgb_image_paths thermal_image_paths : list string)
    (turbine_blade_prefix : string) :
  let content :=
    build_user_content rgb_image_paths thermal_image_paths turbine_blade_prefix in
  images_of content = (rgb_image_paths ++ thermal_image_paths)%list /\
  List.length (texts_of content) =
    (if truthy rgb_image_paths then 1 else 0) +
    (if truthy thermal_image_paths then 1 else 0) /\
  List.length content =
    List.length (images_of content) + List.length (texts_of content) /\
  (content = [] <-> rgb_image_paths = [] /\ thermal_image_paths = []).
Proof.
  cbv zeta. rewrite user_content_as_blocks.
  unfold images_of at 1 2, texts_of at 1 2. rewrite !flat_map_app.
  fold (images_of (spec_block RGB rgb_image_paths turbine_blade_prefix)).
  fold (images_of (spec_block Thermal thermal_image_paths turbine_blade_prefix)).
  fold (texts_of (spec_block RGB rgb_image_paths turbine_blade_prefix)).
  fold (texts_of (spec_block Thermal thermal_image_paths turbine_blade_prefix)).
  rewrite !images_of_block, !length_app, !texts_of_block, !length_block.
  split; [reflexivity|]. split; [reflexivity|]. split; [lia|].
  split.
  - intros H. apply app_eq_nil in H as [Hr Ht].
    destruct rgb_image_paths, thermal_image_paths; try discriminate. auto.
  - intros [-> ->]. reflexivity.
Qed.

Section ReportFailures.

Variables St vision : Type.
Variable process_vision_info : list message -> result vision.
Variable model : Model St vision.
Variable processor : Processor vision.
Variables rgb_image_paths thermal_image_paths : list string.
Variable turbine_blade_prefix : string.
Variable w : world St.

Let messages :=
  build_messages rgb_image_paths thermal_image_paths turbine_blade_prefix.

Let run :=
  generate_blade_report process_vision_info rgb_image_paths thermal_image_paths
    model processor turbine_blade_prefix w.

Let entered :=
  EvReport turbine_blade_prefix rgb_image_paths thermal_image_paths.

Lemma report_fails_before_model (e : exn) :
  apply_chat_template processor messages = Raise e \/
  (exists text,
     apply_chat_template processor messages = Ok text /\
     (process_vision_info messages = Raise e \/
      exists vis,
        process_vision_info messages = Ok vis /\
        processor_call processor [text] vis = Raise e)) ->
  run = (Raise e, mkWorld (model_state w) (trace w ++ [entered])).
Proof.
  unfold run, generate_blade_report, call_generate, bind, emit, lift.
  fold messages. cbn [model_state trace].
  intros [H | (text & Ht & [H | (vis & Hv & H)])].
  - now rewrite H.
  - now rewrite Ht, H.
  - now rewrite Ht, Hv, H.
Qed.

Lemma report_fails_in_model (text : string) (vis : vision)
    (inputs : BatchFeature vision) (e : exn) (st' : St) :
  apply_chat_template processor messages = Ok text ->
  process_vision_info messages = Ok vis ->
  processor_call processor [text] vis = Ok inputs ->
  generate model inputs 1024 (model_state w) = (Raise e, st') ->
  run = (Raise e, mkWorld st' (trace w ++ [entered; EvGenerate 1024])).
Proof.
  unfold run, generate_blade_report, call_generate, bind, emit, lift.
  fold messages. cbn [model_state trace].
  intros -> -> -> ->. cbn. now rewrite <- app_assoc.
Qed.

Lemma report_empty_batch (text : string) (vis : vision)
    (inputs : BatchFeature vision) (outs : list (list token)) (st' : St) :
  apply_chat_template processor messages = Ok text ->
  process_vision_info messages = Ok vis ->
  processor_call processor [text] vis = Ok inputs ->
  generate model inputs 1024 (model_state w) = (Ok outs, st') ->
  input_ids inputs = [] \/ outs = [] ->
  run = (Raise IndexError, mkWorld st' (trace w ++ [entered; EvGenerate 1024])).
Proof.
  unfold run, generate_blade_report, call_generate, bind, emit, lift.
  fold messages. cbn [model_state trace].
  intros -> -> -> -> Hempty.
  assert (Htrim : trim_prompt (input_ids inputs) outs = []).
  { unfold trim_prompt. destruct Hempty as [-> | ->]; [reflexivity|].
    now destruct (input_ids inputs). }
  rewrite Htrim. cbn. now rewrite <- app_assoc.
Qed.

Lemma report_fails_in_decode (text : string) (vis : vision)
    (inputs : BatchFeature vision) (prompt out : list token)
    (more_prompts more_outs : list (list token)) (e : exn) (st' : St) :
  apply_chat_template processor messages = Ok text ->
  process_vision_info messages = Ok vis ->
  processor_call processor [text] vis = Ok inputs ->
  input_ids inputs = prompt :: more_prompts ->
  generate model inputs 1024 (model_state w) = (Ok (out :: more_outs), st') ->
  decode processor (skipn (List.length prompt) out) = Raise e ->
  run = (Raise e, mkWorld st' (trace w ++ [entered; EvGenerate 1024])).
Proof.
  unfold run, generate_blade_report, call_generate, bind, emit, lift.
  fold messages. cbn [model_state trace].
  intros -> -> -> -> -> Hdec. unfold trim_prompt. cbn [combine map batch_decode].
  rewrite Hdec. cbn. now rewrite <- app_assoc.
Qed.

End ReportFailures.

(** X13. When the chat template, the loading of the images or the
    processor call raises, the report generator raises the same exception
    and the model is not called: its state is untouched and the trace
    gains the entry into the generator and nothing else. *)
Theorem report_failure_before_model_call
    (St vision : Type) (process_vision_info : list message -> result vision)
    (rgb_image_paths thermal_image_paths : list string)
    (model : Model St vision) (processor : Processor vision)
    (turbine_blade_prefix : string) (w : world St) (e : exn) :
  apply_chat_template processor
    (build_messages rgb_image_paths thermal_image_paths turbine_blade_prefix)
    = Raise e \/
  (exists text,
     apply_chat_template processor
       (build_messages rgb_image_paths thermal_image_paths turbine_blade_prefix)
       = Ok text /\
     (process_vision_info
        (build_messages rgb_image_paths thermal_image_paths turbine_blade_prefix)
        = Raise e \/
      exists vis,
        process_vision_info
          (build_messages rgb_image_paths thermal_image_paths turbine_blade_prefix)
          = Ok vis /\
        processor_call processor [text] vis = Raise e)) ->
  generate_blade_report process_vision_info rgb_image_paths thermal_image_paths
    model processor turbine_blade_prefix w =
  (Raise e,
   mkWorld (model_state w)
     (trace w ++
      [EvReport turbine_blade_prefix rgb_image_paths thermal_image_paths])).
Proof. apply report_fails_before_model. Qed.

Lemma report_failure_before_model_call_witness :
  generate_blade_report example_vision_info ["A/Turbine-2_B_1.jpg"] []
    example_model failing_template_processor "Turbine-2_B" example_world =
  (Raise (ExternalError "template"),
   mkWorld (model_state example_world)
     (trace example_world ++
      [EvReport "Turbine-2_B" ["A/Turbine-2_B_1.jpg"] []])).
Proof.
  apply (@report_failure_before_model_call unit unit example_vision_info
           ["A/Turbine-2_B_1.jpg"] [] example_model failing_template_processor
           "Turbine-2_B" example_world (ExternalError "template")).
  left. reflexivity.
Defined.

(** X14. When [model.generate] raises, the report generator raises the
    same exception after that one call, made with the budget 1024, and
    leaves the model in the state the failed call left. *)
Theorem report_failure_in_model
    (St vision : Type) (process_vision_info : list message -> result vision)
    (rgb_image_paths thermal_image_paths : list string)
    (model : Model St vision) (processor : Processor vision)
    (turbine_blade_prefix : string) (w : world St)
    (text : string) (vis : vision) (inputs : BatchFeature vision)
    (e : exn) (st' : St) :
  apply_chat_template processor
    (build_messages rgb_image_paths thermal_image_paths turbine_blade_prefix)
    = Ok text ->
  process_vision_info
    (build_messages rgb_image_paths thermal_image_paths turbine_blade_prefix)
    = Ok vis ->
  processor_call processor [text] vis = Ok inputs ->
  generate model inputs 1024 (model_state w) = (Raise e, st') ->
  generate_blade_report process_vision_info rgb_image_paths thermal_image_paths
    model processor turbine_blade_prefix w =
  (Raise e,
   mkWorld st'
     (trace w ++
      [EvReport turbine_blade_prefix rgb_image_paths thermal_image_paths;
       EvGenerate 1024])).
Proof. apply report_fails_in_model. Qed.

Lemma report_failure_in_model_witness :
  generate_blade_report example_vision_info ["A/Turbine-2_B_1.jpg"] []
    failing_model example_processor "Turbine-2_B" example_world =
  (Raise (ExternalError "out of memory"),
   mkWorld tt
     (trace example_world ++
      [EvReport "Turbine-2_B" ["A/Turbine-2_B_1.jpg"] []; EvGenerate 1024])).
Proof.
  apply (@report_failure_in_model unit unit example_vision_info
           ["A/Turbine-2_B_1.jpg"] [] failing_model example_processor
           "Turbine-2_B" example_world "prompt" tt (mkBatch [[1; 2; 3]] tt)
           (ExternalError "out of memory") tt);
    reflexivity.
Defined.

(** X15. When the processor gives no prompt row or the model returns no
    output row, there is no completion to take and [output_text[0]] raises
    [IndexError]. *)
Theorem report_index_error_on_empty_batch
    (St vision : Type) (process_vision_info : list message -> result vision)
    (rgb_image_paths thermal_image_paths : list string)
    (model : Model St vision) (processor : Processor vision)
    (turbine_blade_prefix : string) (w : world St)
    (text : string) (vis : vision) (inputs : BatchFeature vision)
    (outs : list (list token)) (st' : St) :
  apply_chat_template processor
    (build_messages rgb_image_paths thermal_image_paths turbine_blade_prefix)
    = Ok text ->
  process_vision_info
    (build_messages rgb_image_paths thermal_image_paths turbine_blade_prefix)
    = Ok vis ->
  processor_call processor [text] vis = Ok inputs ->
  generate model inputs 1024 (model_state w) = (Ok outs, st') ->
  input_ids inputs = [] \/ outs = [] ->
  generate_blade_report process_vision_info rgb_image_paths thermal_image_paths
    model processor turbine_blade_prefix w =
  (Raise IndexError,
   mkWorld st'
     (trace w ++
      [EvReport turbine_blade_prefix rgb_image_paths thermal_image_paths;
       EvGenerate 1024])).
Proof. apply report_empty_batch. Qed.

Lemma report_index_error_on_empty_batch_witness :
  generate_blade_report example_vision_info ["A/Turbine-2_B_1.jpg"] []
    silent_model example_processor "Turbine-2_B" example_world =
  (Raise IndexError,
   mkWorld tt
     (trace example_world ++
      [EvReport "Turbine-2_B" ["A/Turbine-2_B_1.jpg"] []; EvGenerate 1024])).
Proof.
  apply (@report_index_error_on_empty_batch unit unit example_vision_info
           ["A/Turbine-2_B_1.jpg"] [] silent_model example_processor
           "Turbine-2_B" example_world "prompt" tt (mkBatch [[1; 2; 3]] tt)
           [] tt); try reflexivity.
  right. reflexivity.
Defined.

(** X16. When the decoding of the first trimmed row raises, the report
    generator raises the same exception: no text is substituted and the
    model is not called again. *)
Theorem report_failure_in_decode
    (St vision : Type) (process_vision_info : list message -> result vision)
    (rgb_image_paths thermal_image_paths : list string)
    (model : Model St vision) (processor : Processor vision)
    (turbine_blade_prefix : string) (w : world St)
    (text : string) (vis : vision) (inputs : BatchFeature vision)
    (prompt out : list token) (more_prompts more_outs : list (list token))
    (e : exn) (st' : St) :
  apply_chat_template processor
    (build_messages rgb_image_paths thermal_image_paths turbine_blade_prefix)
    = Ok text ->
  process_vision_info
    (build_messages rgb_image_paths thermal_image_paths turbine_blade_prefix)
    = Ok vis ->
  processor_call processor [text] vis = Ok inputs ->
  input_ids inputs = prompt :: more_prompts ->
  generate model inputs 1024 (model_state w) = (Ok (out :: more_outs), st') ->
  decode processor (skipn (List.length prompt) out) = Raise e ->
  generate_blade_report process_vision_info rgb_image_paths thermal_image_paths
    model processor turbine_blade_prefix w =
  (Raise e,
   mkWorld st'
     (trace w ++
      [EvReport turbine_blade_prefix rgb_image_paths thermal_image_paths;
       EvGenerate 1024])).
Proof. apply report_fails_in_decode. Qed.

Lemma report_failure_in_decode_witness :
  generate_blade_report example_vision_info ["A/Turbine-2_B_1.jpg"] []
    example_model failing_decode_processor "Turbine-2_B" example_world =
  (Raise (ExternalError "decode"),
   mkWorld tt
     (trace example_world ++
      [EvReport "Turbine-2_B" ["A/Turbine-2_B_1.jpg"] []; EvGenerate 1024])).
Proof.
  apply (@report_failure_in_decode unit unit example_vision_info
           ["A/Turbine-2_B_1.jpg"] [] example_model failing_decode_processor
           "Turbine-2_B" example_world "prompt" tt (mkBatch [[1; 2; 3]] tt)
           [1; 2; 3] [1; 2; 3; 7] [] [] (ExternalError "decode") tt);
    reflexivity.
Defined.

(** X17. Trimming the prompt off a batch.  There are as many trimmed rows
    as the shorter of the two batches has rows; a trimmed row has the
    length of its output row less that of its prompt row, none when the
    output is the shorter; and when each output row is its prompt row
    followed by new tokens, the trimmed rows are exactly these new
    tokens. *)
Theorem trim_prompt_rows (ins outs : list (list token)) :
  List.length (trim_prompt ins outs) = Nat.min (List.length ins) (List.length outs) /\
  map (@List.length token) (trim_prompt ins outs) =
    map (fun io => List.length (snd io) - List.length (fst io)) (combine ins outs) /\
  (forall news,
     List.length news = List.length ins ->
     trim_prompt ins (map (fun io => (fst io ++ snd io)%list) (combine ins news))
     = news).
Proof.
  unfold trim_prompt. split; [|split].
  - now rewrite length_map, length_combine.
  - rewrite map_map. apply map_ext. intros [i o]. cbn [fst snd].
    apply length_skipn.
  - clear outs. induction ins as [|i ins IH]; intros [|n news] Hlen;
      try discriminate; [reflexivity|].
    injection Hlen as Hlen. cbn [combine map fst snd].
    now rewrite skipn_prompt, IH.
Qed.

(** X18. Whatever happens, one call of the report generator calls the
    model at most once, always with the budget 1024, prints nothing and
    writes nothing; it calls it exactly once when it returns a text, and
    when it does not call it the state of the model is unchanged. *)
Theorem report_calls_model_at_most_once
    (St vision : Type) (process_vision_info : list message -> result vision)
    (rgb_image_paths thermal_image_paths : list string)
    (model : Model St vision) (processor : Processor vision)
    (turbine_blade_prefix : string) (w : world St) :
  exists new,
    trace (snd (generate_blade_report process_vision_info rgb_image_paths
                  thermal_image_paths model processor turbine_blade_prefix w)) =
      (trace w ++
       EvReport turbine_blade_prefix rgb_image_paths thermal_image_paths
       :: new)%list /\
    (new = [] \/ new = [EvGenerate 1024]) /\
    (forall s,
       fst (generate_blade_report process_vision_info rgb_image_paths
              thermal_image_paths model processor turbine_blade_prefix w) = Ok s ->
       new = [EvGenerate 1024]) /\
    (new = [] ->
     model_state
       (snd (generate_blade_report process_vision_info rgb_image_paths
               thermal_image_paths model processor turbine_blade_prefix w)) =
     model_state w).
Proof.
  unfold generate_blade_report, call_generate, bind, emit, lift.
  cbn [model_state trace].
  destruct (apply_chat_template processor _) as [text|e];
    [|exists []; cbn; repeat split; auto; discriminate].
  destruct (process_vision_info _) as [vis|e];
    [|exists []; cbn; repeat split; auto; discriminate].
  destruct (processor_call processor _ _) as [inputs|e];
    [|exists []; cbn; repeat split; auto; discriminate].
  exists [EvGenerate 1024].
  destruct (generate model inputs 1024 _) as [[outs|e] st];
    [|cbn; rewrite <- app_assoc; repeat split; auto; discriminate].
  destruct (batch_decode processor _) as [texts|e];
    cbn; rewrite <- app_assoc; repeat split; auto; discriminate.
Qed.

(** * Further properties of the batch loop *)

Lemma prints_of_app (a b : list event) :
  prints_of (a ++ b) = (prints_of a ++ prints_of b)%list.
Proof. apply flat_map_app. Qed.

Lemma writes_of_app (a b : list event) :
  writes_of (a ++ b) = (writes_of a ++ writes_of b)%list.
Proof. apply flat_map_app. Qed.

Lemma budgets_of_app (a b : list event) :
  budgets_of (a ++ b) = (budgets_of a ++ budgets_of b)%list.
Proof. apply flat_map_app. Qed.

(** What the events of the processed groups show. *)
Lemma report_events_read (markdown : string -> string) (items : dict)
    (reports : list string) :
  prints_of (report_events markdown items reports) =
    sections_of markdown items reports /\
  writes_of (report_events markdown items reports) = [] /\
  budgets_of (report_events markdown items reports) =
    repeat 1024 (Nat.min (List.length items) (List.length reports)).
Proof.
  unfold report_events, sections_of.
  revert reports. induction items as [|item items IH]; intros [|rep reports];
    try (cbn; auto; fail).
  destruct (IH reports) as (Hp & Hw & Hb).
  cbn [combine flat_map map List.length Nat.min repeat].
  rewrite prints_of_app, writes_of_app, budgets_of_app, Hp, Hw, Hb.
  cbn. auto.
Qed.

Section RunOutcomes.

Variables St vision : Type.
Variable process_vision_info : list message -> result vision.
Variable markdown : string -> string.
Variable model : Model St vision.
Variable processor : Processor vision.

Let body := process_group process_vision_info markdown model processor.



End RunOutcomes.

Lemma processed_grouped (fs : filesystem) (rgb_dir thermal_dir : string) :
  processed (grouped fs rgb_dir thermal_dir) = grouped fs rgb_dir thermal_dir.
Proof.
  assert (H : forall k g, In (k, g) (grouped fs rgb_dir thermal_dir) ->
                          no_data g = false)
    by apply grouped_not_empty.
  unfold processed.
  induction (grouped fs rgb_dir thermal_dir) as [|[k g] d IH]; cbn [filter snd];
    [reflexivity|].
  rewrite (H k g) by now left. cbn [negb]. f_equal. apply IH.
  intros k' g' Hg'. apply (H k' g'). now right.
Qed.



(** X20. The trace of a run that succeeds: for each group in mapping
    order the entry into the report generator, one model call with the
    budget 1024 and the print of the section, and last the one write, to
    the output file.  What was printed, in order, is what the document
    holds; there is one model call per group. *)
Theorem successful_run_trace
    (St vision : Type) (process_vision_info : list message -> result vision)
    (markdown : string -> string) (fs : filesystem)
    (rgb_dir thermal_dir output_file : string)
    (model : Model St vision) (processor : Processor vision) (w : world St) :
  fst (process_turbine_data_to_html process_vision_info markdown fs rgb_dir
         thermal_dir output_file model processor w) = Ok tt ->
  exists groups reports new,
    group_files_by_turbine_blade fs rgb_dir thermal_dir = Ok groups /\
    List.length reports = List.length groups /\
    trace (snd (process_turbine_data_to_html process_vision_info markdown fs
                  rgb_dir thermal_dir output_file model processor w)) =
      (trace w ++ new)%list /\
    new = (report_events markdown groups reports ++
           [EvWrite output_file
              (html_document (sections_of markdown groups reports))])%list /\
    prints_of new = sections_of markdown groups reports /\
    budgets_of new = repeat 1024 (List.length groups) /\
    writes_of new =
      [(output_file, html_document (sections_of markdown groups reports))].
Proof.
  rewrite process_turbine_data_to_html_eq. intros Hok.
  destruct (render_groups_spec process_vision_info markdown model processor
              (grouped fs rgb_dir thermal_dir) output_file w)
    as (new & Htr & _ & _ & Hrun).
  destruct (Hrun Hok) as (reports & w1 & Hrep & _ & Hnew).
  rewrite processed_grouped in Hrep, Hnew.
  pose proof (reported_length Hrep) as Hlen.
  destruct (report_events_read markdown (grouped fs rgb_dir thermal_dir) reports)
    as (Hp & Hw & Hb).
  exists (grouped fs rgb_dir thermal_dir), reports, new.
  split; [apply group_files_eq|]. split; [exact Hlen|].
  split; [exact Htr|]. split; [exact Hnew|].
  rewrite Hnew, prints_of_app, budgets_of_app, writes_of_app, Hp, Hw, Hb.
  rewrite Hlen, Nat.min_id. cbn. now rewrite !app_nil_r.
Qed.

Lemma successful_run_trace_witness :
  exists groups reports new,
    group_files_by_turbine_blade example_fs "A" "B" = Ok groups /\
    List.length reports = List.length groups /\
    trace (snd (process_turbine_data_to_html example_vision_info example_markdown
                  example_fs "A" "B" "out.html" example_model example_processor
                  example_world)) =
      (trace example_world ++ new)%list /\
    new = (report_events example_markdown groups reports ++
           [EvWrite "out.html"
              (html_document (sections_of example_markdown groups reports))])%list /\
    prints_of new = sections_of example_markdown groups reports /\
    budgets_of new = repeat 1024 (List.length groups) /\
    writes_of new =
      [("out.html", html_document (sections_of example_markdown groups reports))].
Proof.
  apply (@successful_run_trace unit unit example_vision_info example_markdown
           example_fs "A" "B" "out.html" example_model example_processor
           example_world).
  reflexivity.
Defined.






(** * Further properties of names and paths *)

Lemma lower_char_idempotent (c : ascii) :
  Str.lower_char (Str.lower_char c) = Str.lower_char c.
Proof.
  destruct c as [[] [] [] [] [] [] [] []]; reflexivity.
Qed.

Lemma lower_idempotent (s : string) : Str.lower (Str.lower s) = Str.lower s.
Proof.
  induction s as [|c s IH]; cbn [Str.lower]; [reflexivity|].
  now rewrite lower_char_idempotent, IH.
Qed.

(** X23. The extension test holds exactly when the name is a stem followed
    by four characters that read [.jpg] or [.png] once lowered; it gives
    the same answer on the lowered name; and it fails on every name of
    fewer than four characters. *)
Theorem is_image_ignores_case (fname : string) :
  (is_image fname = true <-> has_image_extension fname) /\
  is_image (Str.lower fname) = is_image fname /\
  (String.length fname < 4 -> is_image fname = false).
Proof.
  split; [apply is_image_iff|]. split.
  - unfold is_image. now rewrite lower_idempotent.
  - intros Hlen. unfold is_image, Str.endswith.
    rewrite StrFacts.length_lower. cbn [String.length].
    assert (H : (4 <=? String.length fname)%nat = false)
      by (apply Nat.leb_gt; exact Hlen).
    now rewrite H.
Qed.

Lemma path_join_relative (dir f : string) :
  Str.startswith f "/" = false -> path_join dir f = join_prefix dir ++ f.
Proof.
  intros H. unfold path_join, join_prefix. rewrite H.
  destruct (String.eqb dir "" || Str.endswith dir "/"); [reflexivity|].
  now rewrite StrFacts.append_assoc.
Qed.

Lemma kept_relative (f k : string) : kept f = Some k -> Str.startswith f "/" = false.
Proof.
  intros H. apply kept_iff in H as [_ H]. apply pattern_match_iff in H.
  apply pattern_match_head in H as [r ->]. reflexivity.
Qed.

Lemma startswith_append (p s : string) : Str.startswith (p ++ s) p = true.
Proof. apply StrFacts.startswith_spec. eauto. Qed.

(** X24. A path of a group lies under the directory it was found in: it
    starts with that directory, and when the entries are base names its
    last component is an entry of the directory, kept under the key of
    the group. *)
Theorem group_paths_lie_under_directory
    (fs : filesystem) (rgb_dir thermal_dir : string) (groups : dict)
    (k : string) (g : group) (m : modality) (p : string) :
  base_names fs ->
  group_files_by_turbine_blade fs rgb_dir thermal_dir = Ok groups ->
  In (k, g) groups ->
  In p (files_of m g) ->
  Str.startswith p (dir_of m rgb_dir thermal_dir) = true /\
  exists names,
    fs (dir_of m rgb_dir thermal_dir) = Some names /\
    In (basename p) names /\
    pattern_match (basename p) = Some k /\
    p = path_join (dir_of m rgb_dir thermal_dir) (basename p).
Proof.
  intros Hbase. rewrite group_files_eq. intros [= <-] Hg Hp.
  destruct (grouped_path_origin _ _ _ _ _ _ _ Hg Hp)
    as (names & f & Hfs & Hf & Hk & ->).
  pose proof (Hbase _ _ Hfs) as HF. rewrite Forall_forall in HF.
  rewrite (basename_path_join _ _ (HF _ Hf)). split.
  - rewrite (path_join_relative _ _ (kept_relative _ Hk)).
    unfold join_prefix.
    destruct (String.eqb (dir_of m rgb_dir thermal_dir) "" ||
              Str.endswith (dir_of m rgb_dir thermal_dir) "/").
    + apply startswith_append.
    + rewrite StrFacts.append_assoc. apply startswith_append.
  - exists names. repeat split; trivial.
    apply kept_iff in Hk as [_ Hk]. now apply pattern_match_iff.
Qed.

Lemma group_paths_lie_under_directory_witness :
  Str.startswith "B/Turbine-2_A_thermal_01.jpg" "B" = true /\
  exists names,
    example_fs "B" = Some names /\
    In (basename "B/Turbine-2_A_thermal_01.jpg") names /\
    pattern_match (basename "B/Turbine-2_A_thermal_01.jpg") = Some "Turbine-2_A" /\
    "B/Turbine-2_A_thermal_01.jpg" =
      path_join "B" (basename "B/Turbine-2_A_thermal_01.jpg").
Proof.
  apply (@group_paths_lie_under_directory example_fs "A" "B"
           [("Turbine-2_A",
             mkGroup ["A/Turbine-2_A_PS_sequence_13.jpg";
                      "A/Turbine-2_A_PS_sequence_14.png"]
                     ["B/Turbine-2_A_thermal_01.jpg"])]
           "Turbine-2_A"
           (mkGroup ["A/Turbine-2_A_PS_sequence_13.jpg";
                     "A/Turbine-2_A_PS_sequence_14.png"]
                    ["B/Turbine-2_A_thermal_01.jpg"])
           Thermal "B/Turbine-2_A_thermal_01.jpg").
  - exact base_names_example_fs.
  - reflexivity.
  - simpl. auto.
  - simpl. auto.
Defined.

Lemma ascii_compare_refl (c : ascii) : Ascii.compare c c = Eq.
Proof. unfold Ascii.compare. apply BinNat.N.compare_refl. Qed.

Lemma leb_append_head (p a b : string) :
  String.leb (p ++ a) (p ++ b) = String.leb a b.
Proof.
  unfold String.leb. induction p as [|c p IH]; cbn [String.append String.compare];
    [reflexivity|].
  now rewrite ascii_compare_refl.
Qed.

Lemma StronglySorted_filter_le (f : string -> bool) (l : list string) :
  StronglySorted le l -> StronglySorted le (filter f l).
Proof.
  induction 1 as [|x l Hs IH Hx]; cbn [filter]; [constructor|].
  destruct (f x); [|assumption]. constructor; [assumption|].
  rewrite Forall_forall in *. intros y Hy. apply filter_In in Hy as [Hy _]. auto.
Qed.

Lemma StronglySorted_map_append (p : string) (l : list string) :
  StronglySorted le l -> StronglySorted le (map (String.append p) l).
Proof.
  induction 1 as [|x l Hs IH Hx]; cbn [map]; constructor; [assumption|].
  rewrite Forall_forall in *. intros y Hy.
  apply in_map_iff in Hy as (z & <- & Hz).
  unfold le. rewrite leb_append_head. now apply Hx.
Qed.

(** X25. Each list of each group is in ascending order, the order of
    Python on strings, so that the images reach the model in the sorted
    order of their paths. *)
Theorem group_lists_are_sorted
    (fs : filesystem) (rgb_dir thermal_dir : string) :
  exists groups,
    group_files_by_turbine_blade fs rgb_dir thermal_dir = Ok groups /\
    forall k g, In (k, g) groups ->
      StronglySorted le (rgb g) /\ StronglySorted le (thermal g).
Proof.
  exists (grouped fs rgb_dir thermal_dir). split; [apply group_files_eq|].
  assert (H : forall k g m, In (k, g) (grouped fs rgb_dir thermal_dir) ->
                            StronglySorted le (files_of m g)).
  { intros k g m Hg. rewrite (grouped_In _ _ _ _ _ Hg m).
    set (dir := dir_of m rgb_dir thermal_dir).
    rewrite (map_ext_in _ (String.append (join_prefix dir))).
    - apply StronglySorted_map_append, StronglySorted_filter_le.
      unfold listing. destruct (fs dir); [apply sorted_StronglySorted | constructor].
    - intros f Hf. apply filter_In in Hf as [_ Hf]. unfold kept_as in Hf.
      destruct (kept f) as [k'|] eqn:Hk; [|discriminate].
      apply path_join_relative. eapply kept_relative; eassumption. }
  intros k g Hg. split; [apply (H k g RGB Hg) | apply (H k g Thermal Hg)].
Qed.
